(** * Forest-fire cellular automaton: the simulation engine of simulation.py

    A shallow embedding of the simulation logic of [ForestFireSimulation]
    (the cell grid, the wind bias, the derived fire probability, the step
    function and the button actions) together with the properties stated
    about it.

    Modelling conventions.
    - Python floats are idealised as the real numbers of the Standard
      Library; [math.atan2], [math.cos], [math.radians] are their
      mathematical counterparts.
    - The numpy array [self.grid] is a list of rows; it always has shape
      ([GRID_HEIGHT], [GRID_WIDTH]).
    - numpy's global random generator is an abstract state that is threaded
      through every operation that draws from it. *)

From Stdlib Require Import Reals Lra ZArith Lia.
From stdpp Require Import base option list.

(** ** Constants and cell states *)

Inductive CellState : Set := EMPTY | TREE | BURNING | BURNT.

#[global] Instance CellState_eq_dec : EqDecision CellState.
Proof. solve_decision. Defined.

(** The integer tag stored in the uint8 array. *)
Definition CellState_value (c : CellState) : Z :=
  match c with EMPTY => 0 | TREE => 1 | BURNING => 2 | BURNT => 3 end.

Definition GRID_WIDTH : Z := 120.
Definition GRID_HEIGHT : Z := 80.

(** ** Helper functions on numbers *)

Section Numbers.
Local Open Scope R_scope.

(** [def clamp(val, lo, hi): return max(lo, min(hi, val))] *)
Definition clamp (val lo hi : R) : R := Rmax lo (Rmin hi val).

(** [math.radians] *)
Definition radians (d : R) : R := d * PI / 180.

(** [math.atan2 y x], for arguments that are (converted) integers, so that
    no signed zero occurs. *)
Definition atan2 (y x : R) : R :=
  if Rlt_dec 0 x then atan (y / x)
  else if Rlt_dec x 0 then
         (if Rle_dec 0 y then atan (y / x) + PI else atan (y / x) - PI)
       else if Rlt_dec 0 y then PI / 2
            else if Rlt_dec y 0 then - (PI / 2) else 0.

(** The compass bearing of a neighbour offset, line 270 of the source:
    [math.atan2(dx, -dy) * 180 / math.pi]. *)
Definition bearing (dy dx : Z) : R := atan2 (IZR dx) (IZR (- dy)) * 180 / PI.

(** [_get_wind_bias], with the two attributes it reads as arguments. *)
Definition _get_wind_bias (wind_str wind_dir : R) (dy dx : Z) : R :=
  if Req_dec_T wind_str 0 then 1
  else
    let angle := bearing dy dx in
    let diff := Rabs (angle - wind_dir) in
    let diff := if Rlt_dec 180 diff then 360 - diff else diff in
    Rmax (1 / 10) (1 + wind_str * cos (radians diff)).

(** The value of the local variable [diff] when [_get_wind_bias] returns. *)
Definition wind_diff (wind_dir : R) (dy dx : Z) : R :=
  let diff := Rabs (bearing dy dx - wind_dir) in
  if Rlt_dec 180 diff then 360 - diff else diff.

End Numbers.

(** ** The grid *)

Abbreviation Grid := (list (list CellState)).

(** [grid[y, x]].  The source reads a cell only at the coordinates returned
    by [argwhere] or after the bounds check of line 283 or 375, so negative
    indices, which numpy would wrap around, do not occur; [None] stands for
    an index outside the array, where Python raises [IndexError]. *)
Definition cell_at (g : Grid) (y x : Z) : option CellState :=
  g !! Z.to_nat y ≫= λ row, row !! Z.to_nat x.

(** [grid[y, x] = c].  The source writes only to cells that it has just
    read; outside the array the model leaves the grid as it is. *)
Definition grid_set (g : Grid) (y x : Z) (c : CellState) : Grid :=
  alter (λ row, <[Z.to_nat x := c]> row) (Z.to_nat y) g.

(** The array has shape ([GRID_HEIGHT], [GRID_WIDTH]). *)
Definition grid_shape (g : Grid) : Prop :=
  length g = Z.to_nat GRID_HEIGHT ∧
  Forall (λ row, length row = Z.to_nat GRID_WIDTH) g.

(** The cells named in a list are non-negative coordinates of the array. *)
Definition cells_of (g : Grid) (l : list (Z * Z)) : Prop :=
  Forall (λ p, (0 ≤ p.1)%Z ∧ (0 ≤ p.2)%Z ∧ is_Some (cell_at g p.1 p.2)) l.

(** [np.argwhere(grid == c)]: the coordinates of the cells equal to [c], in
    row-major order. *)
Fixpoint row_where (c : CellState) (y x : Z) (row : list CellState)
  : list (Z * Z) :=
  match row with
  | [] => []
  | c' :: row' =>
      (if decide (c' = c) then [(y, x)] else []) ++ row_where c y (x + 1) row'
  end.

Fixpoint argwhere_from (c : CellState) (y : Z) (g : Grid) : list (Z * Z) :=
  match g with
  | [] => []
  | row :: g' => row_where c y 0 row ++ argwhere_from c (y + 1) g'
  end.

Definition argwhere (g : Grid) (c : CellState) : list (Z * Z) :=
  argwhere_from c 0 g.

(** [np.any(grid == c)] *)
Definition any_state (g : Grid) (c : CellState) : bool :=
  existsb (existsb (λ c', bool_decide (c' = c))) g.

(** The guard [0 <= ny < GRID_HEIGHT and 0 <= nx < GRID_WIDTH]. *)
Definition in_grid (ny nx : Z) : bool :=
  (0 <=? ny)%Z && (ny <? GRID_HEIGHT)%Z && (0 <=? nx)%Z && (nx <? GRID_WIDTH)%Z.

(** The neighbour offsets, in the order of the inner loop of
    [_simulate_step]. *)
Definition OFFSETS : list (Z * Z) :=
  [(-1, 0); (1, 0); (0, -1); (0, 1); (-1, -1); (-1, 1); (1, -1); (1, 1)]%Z.

(** The buffer [new] after line 278: a copy of the grid in which every
    burning cell is burnt. *)
Definition burnt_out (old : Grid) : Grid :=
  foldl (λ (n : Grid) '(y, x), grid_set n y x BURNT) old (argwhere old BURNING).

(** ** The random generator

    [np.random] is used through three calls: [random()], [uniform(a, b)]
    and [choice].  The generator is a state; every call returns a value and
    the next state.  [random] is the uniform draw from the half-open unit
    interval; [choice_distinct n k] is [choice(n, k, replace=False)], whose
    contract is to return [k] pairwise distinct indices below [n]. *)

Class RandomState (G : Type) : Type := {
  random : G → R * G;
  choice_distinct : nat → nat → G → list nat * G;
  random_range : ∀ g, (0 <= (random g).1 < 1)%R;
  choice_distinct_length : ∀ n k g,
    k ≤ n → length (choice_distinct n k g).1 = k;
  choice_distinct_NoDup : ∀ n k g, k ≤ n → NoDup (choice_distinct n k g).1;
  choice_distinct_bound : ∀ n k g,
    k ≤ n → Forall (λ i, i < n) (choice_distinct n k g).1
}.

(** ** The simulation object *)

(** A slider: only the value range and the value matter to the engine. *)
Record Slider : Type := mkSlider { min_v : R; max_v : R; val : R }.

Definition set_val (sl : Slider) (v : R) : Slider :=
  {| min_v := min_v sl; max_v := max_v sl; val := v |}.

(** [Slider.update_val] with the pixel arithmetic already done: the value is
    clamped into the slider's range. *)
Definition update_val (sl : Slider) (v : R) : Slider :=
  set_val sl (clamp v (min_v sl) (max_v sl)).

(** [self.sliders] is built once by [_create_ui] and always holds the same
    five sliders; its positions 0 to 4 are the five fields. *)
Record Sliders : Type := mkSliders {
  slider0 : Slider;   (* Tree Density *)
  slider1 : Slider;   (* Wind Direction *)
  slider2 : Slider;   (* Wind Strength *)
  slider3 : Slider;   (* Moisture *)
  slider4 : Slider    (* Temperature *)
}.

(** The attributes of [ForestFireSimulation] that the simulation logic reads
    or writes (display, fonts, clock and [last_step] belong to the driver). *)
Record ForestFireSimulation : Type := mkSim {
  grid : Grid;
  running : bool;
  paused : bool;
  tree_density : R;
  wind_dir : R;
  wind_str : R;
  moisture : R;
  temperature : R;
  fire_prob : R;
  sliders : Sliders
}.

Definition with_grid (s : ForestFireSimulation) (g : Grid) :=
  mkSim g (running s) (paused s) (tree_density s) (wind_dir s) (wind_str s)
        (moisture s) (temperature s) (fire_prob s) (sliders s).

Definition with_running (s : ForestFireSimulation) (b : bool) :=
  mkSim (grid s) b (paused s) (tree_density s) (wind_dir s) (wind_str s)
        (moisture s) (temperature s) (fire_prob s) (sliders s).

Definition with_paused (s : ForestFireSimulation) (b : bool) :=
  mkSim (grid s) (running s) b (tree_density s) (wind_dir s) (wind_str s)
        (moisture s) (temperature s) (fire_prob s) (sliders s).

Definition with_tree_density (s : ForestFireSimulation) (d : R) :=
  mkSim (grid s) (running s) (paused s) d (wind_dir s) (wind_str s)
        (moisture s) (temperature s) (fire_prob s) (sliders s).

Definition with_sliders (s : ForestFireSimulation) (sl : Sliders) :=
  mkSim (grid s) (running s) (paused s) (tree_density s) (wind_dir s)
        (wind_str s) (moisture s) (temperature s) (fire_prob s) sl.

(** [_sync_params] *)
Definition _sync_params (s : ForestFireSimulation) : ForestFireSimulation :=
  let sl := sliders s in
  let tree_density := val (slider0 sl) in
  let wind_dir := val (slider1 sl) in
  let wind_str := val (slider2 sl) in
  let moisture := val (slider3 sl) in
  let temperature := val (slider4 sl) in
  let temp_factor := clamp ((temperature - 10) / 40) 0 1 in
  let fire_prob :=
    clamp (15 / 100 + 5 / 10 * temp_factor + 2 / 10 * wind_str
           - 4 / 10 * moisture) (5 / 100) (95 / 100) in
  mkSim (grid s) (running s) (paused s) tree_density wind_dir wind_str
        moisture temperature fire_prob sl.

#[global] Instance Rlt_decision (a b : R) : Decision (a < b)%R := Rlt_dec a b.

(** ** Operations that draw random numbers *)

Section Engine.
Context {G : Type} `{RS : RandomState G}.

(** The generator state after [k] calls of [random()]. *)
Definition advance (k : nat) (g : G) : G := Nat.iter k (λ g', (random g').2) g.

(** The value returned by the call number [k] (from 0) of [random()]. *)
Definition draw_at (g : G) (k : nat) : R := (random (advance k g)).1.

(** [np.random.uniform(a, b)] is [a + (b - a) * random()]. *)
Definition uniform (a b : R) (g : G) : R * G :=
  let '(u, g') := random g in ((a + (b - a) * u)%R, g').

(** One entry of [np.random.choice([EMPTY, TREE], ..., p=[1 - d, d])]:
    numpy inverts the cumulative distribution [[1 - d, 1]] at a uniform
    draw [u], which selects the first entry exactly when [u < 1 - d]. *)
Definition choose_cell (d u : R) : CellState :=
  if Rlt_dec u (1 - d) then EMPTY else TREE.

Fixpoint choice_row (d : R) (w : nat) (g : G) : list CellState * G :=
  match w with
  | O => ([], g)
  | S w' =>
      let '(u, g1) := random g in
      let '(row, g2) := choice_row d w' g1 in
      (choose_cell d u :: row, g2)
  end.

(** The whole array, filled in row-major order. *)
Fixpoint choice_grid (d : R) (h w : nat) (g : G) : Grid * G :=
  match h with
  | O => ([], g)
  | S h' =>
      let '(row, g1) := choice_row d w g in
      let '(rows, g2) := choice_grid d h' w g1 in
      (row :: rows, g2)
  end.

(** [_init_forest] *)
Definition _init_forest (s : ForestFireSimulation) (g : G)
  : ForestFireSimulation * G :=
  let '(arr, g') :=
    choice_grid (tree_density s) (Z.to_nat GRID_HEIGHT) (Z.to_nat GRID_WIDTH) g
  in (with_grid s arr, g').

(** [_start_fire].  The result is [None] where Python raises [IndexError]
    on [trees[...]]. *)
Definition _start_fire (s : ForestFireSimulation) (g : G)
  : option (ForestFireSimulation * G) :=
  let trees := argwhere (grid s) TREE in
  if decide (0 < length trees) then
    let '(idx, g') :=
      choice_distinct (length trees) (Nat.min 3 (length trees)) g in
    picked ← mapM (λ i : nat, trees !! i) idx;
    let grid' :=
      foldl (λ (gr : Grid) '(y, x), grid_set gr y x BURNING) (grid s) picked in
    Some (with_running (with_grid s grid') true, g')
  else Some (s, g).

(** [_reset_forest] *)
Definition _reset_forest (s : ForestFireSimulation) (g : G)
  : ForestFireSimulation * G :=
  let s1 := with_tree_density s (val (slider0 (sliders s))) in
  let '(s2, g') := _init_forest s1 g in
  (with_paused (with_running s2 false) false, g').

(** [_toggle_pause] *)
Definition _toggle_pause (s : ForestFireSimulation) : ForestFireSimulation :=
  with_paused s (negb (paused s)).

(** [_randomize] *)
Definition _randomize (s : ForestFireSimulation) (g : G)
  : ForestFireSimulation * G :=
  let sl := sliders s in
  let '(v0, g) := uniform (3 / 10) (8 / 10) g in
  let sl := mkSliders (set_val (slider0 sl) v0) (slider1 sl) (slider2 sl)
                      (slider3 sl) (slider4 sl) in
  let '(v1, g) := uniform 0 360 g in
  let sl := mkSliders (slider0 sl) (set_val (slider1 sl) v1) (slider2 sl)
                      (slider3 sl) (slider4 sl) in
  let '(v2, g) := uniform (2 / 10) (9 / 10) g in
  let sl := mkSliders (slider0 sl) (slider1 sl) (set_val (slider2 sl) v2)
                      (slider3 sl) (slider4 sl) in
  let '(v3, g) := uniform 0 (4 / 10) g in
  let sl := mkSliders (slider0 sl) (slider1 sl) (slider2 sl)
                      (set_val (slider3 sl) v3) (slider4 sl) in
  let '(v4, g) := uniform 10 45 g in
  let sl := mkSliders (slider0 sl) (slider1 sl) (slider2 sl) (slider3 sl)
                      (set_val (slider4 sl) v4) in
  let s := _sync_params (with_sliders s sl) in
  _reset_forest s g.

(** The state on which [_randomize] calls [_reset_forest]: the sliders hold
    the five fresh values and the parameters are synced to them. *)
Definition randomized (s : ForestFireSimulation) (g : G)
  : ForestFireSimulation :=
  let sl := sliders s in
  _sync_params
    (with_sliders s
       (mkSliders
          (set_val (slider0 sl) (3 / 10 + (8 / 10 - 3 / 10) * draw_at g 0))
          (set_val (slider1 sl) (0 + (360 - 0) * draw_at g 1))
          (set_val (slider2 sl) (2 / 10 + (9 / 10 - 2 / 10) * draw_at g 2))
          (set_val (slider3 sl) (0 + (4 / 10 - 0) * draw_at g 3))
          (set_val (slider4 sl) (10 + (45 - 10) * draw_at g 4)))).

(** One iteration of the inner loop of [_simulate_step] for the burning cell
    ([by_], [bx]): [acc] holds the buffer [new] and the generator. *)
Definition spread_to (s : ForestFireSimulation) (by_ bx : Z)
  (acc : Grid * G) (d : Z * Z) : Grid * G :=
  let '(dy, dx) := d in
  let '(new, g) := acc in
  let ny := (by_ + dy)%Z in
  let nx := (bx + dx)%Z in
  if in_grid ny nx && bool_decide (cell_at (grid s) ny nx = Some TREE) then
    let prob :=
      (fire_prob s * _get_wind_bias (wind_str s) (wind_dir s) dy dx
       * (1 - moisture s))%R in
    let '(u, g') := random g in
    if Rlt_dec u prob then (grid_set new ny nx BURNING, g') else (new, g')
  else (new, g).

(** [_simulate_step] *)
Definition _simulate_step (s : ForestFireSimulation) (g : G)
  : ForestFireSimulation * G :=
  let new := grid s in
  let burning := argwhere (grid s) BURNING in
  let new := foldl (λ (n : Grid) '(y, x), grid_set n y x BURNT) new burning in
  let '(new, g') :=
    foldl (λ acc '(by_, bx), foldl (spread_to s by_ bx) acc OFFSETS)
          (new, g) burning in
  let s' := with_grid s new in
  (if any_state (grid s') BURNING then s' else with_running s' false, g').

(** [_step_forward] *)
Definition _step_forward (s : ForestFireSimulation) (g : G)
  : ForestFireSimulation * G := _simulate_step s g.

(** The grid click of [_handle_events] (lines 375-377), for the cell
    ([gy], [gx]) under the pointer. *)
Definition ignite_at (s : ForestFireSimulation) (gy gx : Z)
  : ForestFireSimulation :=
  if in_grid gy gx && bool_decide (cell_at (grid s) gy gx = Some TREE) then
    with_running (with_grid s (grid_set (grid s) gy gx BURNING)) true
  else s.

(** The state built by [__init__]: a zero grid, the default parameters and
    sliders, then [_init_forest]. *)
Definition default_sliders : Sliders :=
  mkSliders (mkSlider (1 / 10) (9 / 10) (6 / 10)) (mkSlider 0 360 0)
            (mkSlider 0 1 (5 / 10)) (mkSlider 0 (5 / 10) (2 / 10))
            (mkSlider 0 50 25).

Definition zero_grid : Grid :=
  replicate (Z.to_nat GRID_HEIGHT) (replicate (Z.to_nat GRID_WIDTH) EMPTY).

Definition __init__ (g : G) : ForestFireSimulation * G :=
  _init_forest
    (mkSim zero_grid false false (6 / 10) 0 (5 / 10) (2 / 10) 25 (3 / 10)
           default_sliders) g.

(** ** The ignition trials of one step

    The two nested loops of [_simulate_step] visit pairs of a burning cell
    and an offset; a pair whose neighbour passes the guard performs one
    trial, which consumes one draw. *)

Definition target (t : (Z * Z) * (Z * Z)) : Z * Z :=
  (t.1.1 + t.2.1, t.1.2 + t.2.2)%Z.

(** The guard of line 283. *)
Definition tried (old : Grid) (t : (Z * Z) * (Z * Z)) : bool :=
  in_grid (target t).1 (target t).2
  && bool_decide (cell_at old (target t).1 (target t).2 = Some TREE).

(** The trials of a step, in the order in which the loops perform them. *)
Definition trials (old : Grid) : list ((Z * Z) * (Z * Z)) :=
  filter (λ t, Is_true (tried old t))
         (argwhere old BURNING ≫= λ b, pair b <$> OFFSETS).

(** Line 284. *)
Definition trial_prob (s : ForestFireSimulation) (t : (Z * Z) * (Z * Z)) : R :=
  (fire_prob s * _get_wind_bias (wind_str s) (wind_dir s) t.2.1 t.2.2
   * (1 - moisture s))%R.

(** Line 285. *)
Definition run_trial (s : ForestFireSimulation) (acc : Grid * G)
  (t : (Z * Z) * (Z * Z)) : Grid * G :=
  let '(u, g') := random acc.2 in
  if Rlt_dec u (trial_prob s t)
  then (grid_set acc.1 (target t).1 (target t).2 BURNING, g')
  else (acc.1, g').

(** Whether one of the trials [ts], run in order from generator [g], ignites
    the cell [p]. *)
Fixpoint ignited (s : ForestFireSimulation) (g : G)
  (ts : list ((Z * Z) * (Z * Z))) (p : Z * Z) : bool :=
  match ts with
  | [] => false
  | t :: ts' =>
      (bool_decide (target t = p)
       && bool_decide ((random g).1 < trial_prob s t)%R)
      || ignited s (random g).2 ts' p
  end.

(** ** The synchronous transition function

    The per-cell rule of the specification, as a function of the previous
    grid, the parameters and the generator: [EMPTY] and [BURNT] stay,
    [BURNING] burns out, and a [TREE] ignites when the trial of one of its
    burning Moore neighbours succeeds.  The trial of the burning cell [b]
    towards offset [d] uses the draw whose number is the position of
    ([b], [d]) among the trials of the step. *)

Definition trial_index (old : Grid) (t : (Z * Z) * (Z * Z)) : nat :=
  default 0%nat (fst <$> list_find (λ t', t' = t) (trials old)).

Definition neighbour_ignites (s : ForestFireSimulation) (g : G) (y x : Z)
  (d : Z * Z) : bool :=
  let b := ((y - d.1)%Z, (x - d.2)%Z) in
  in_grid b.1 b.2
  && bool_decide (cell_at (grid s) b.1 b.2 = Some BURNING)
  && bool_decide
       (draw_at g (trial_index (grid s) (b, d)) < trial_prob s (b, d))%R.

Definition sync_cell (s : ForestFireSimulation) (g : G) (y x : Z)
  (c : CellState) : CellState :=
  match c with
  | EMPTY => EMPTY
  | TREE => if existsb (neighbour_ignites s g y x) OFFSETS then BURNING else TREE
  | BURNING => BURNT
  | BURNT => BURNT
  end.

Definition sync_step (s : ForestFireSimulation) (g : G) : Grid :=
  imap (λ y row, imap (λ x c, sync_cell s g (Z.of_nat y) (Z.of_nat x) c) row)
       (grid s).

(** A slider event: slider number [i] takes the (clamped) value [v]. *)
Definition move_slider (s : ForestFireSimulation) (i : nat) (v : R)
  : ForestFireSimulation :=
  let sl := sliders s in
  with_sliders s
    match i with
    | 0 => mkSliders (update_val (slider0 sl) v) (slider1 sl) (slider2 sl)
                     (slider3 sl) (slider4 sl)
    | 1 => mkSliders (slider0 sl) (update_val (slider1 sl) v) (slider2 sl)
                     (slider3 sl) (slider4 sl)
    | 2 => mkSliders (slider0 sl) (slider1 sl) (update_val (slider2 sl) v)
                     (slider3 sl) (slider4 sl)
    | 3 => mkSliders (slider0 sl) (slider1 sl) (slider2 sl)
                     (update_val (slider3 sl) v) (slider4 sl)
    | 4 => mkSliders (slider0 sl) (slider1 sl) (slider2 sl) (slider3 sl)
                     (update_val (slider4 sl) v)
    | _ => sl
    end%nat.

(** The states the program can be in: the result of [__init__] followed by
    any sequence of button actions, slider events, grid clicks, parameter
    syncs and simulation steps, whatever the generator returns. *)
Inductive reachable : ForestFireSimulation → Prop :=
  | reach_init g : reachable (__init__ g).1
  | reach_start_fire s g s' g' :
      reachable s → _start_fire s g = Some (s', g') → reachable s'
  | reach_reset_forest s g : reachable s → reachable (_reset_forest s g).1
  | reach_toggle_pause s : reachable s → reachable (_toggle_pause s)
  | reach_step s g : reachable s → reachable (_simulate_step s g).1
  | reach_randomize s g : reachable s → reachable (_randomize s g).1
  | reach_sync_params s : reachable s → reachable (_sync_params s)
  | reach_ignite_at s gy gx : reachable s → reachable (ignite_at s gy gx)
  | reach_move_slider s i v : reachable s → reachable (move_slider s i v).

End Engine.

(** ** A concrete generator

    A counter whose draws cycle through 0, 0.1, ..., 0.9 and whose samples
    without replacement are the first indices.  It shows that the contract
    of [RandomState] can be met and serves to run the engine on examples. *)

Definition counter_random (n : nat) : R * nat :=
  ((INR (n mod 10) / 10)%R, S n).

Definition counter_choice (n k : nat) (g : nat) : list nat * nat :=
  (seq 0 k, S g).

#[global] Instance counter_RandomState : RandomState nat.
Proof.
  refine {| random := counter_random; choice_distinct := counter_choice |}.
  - intros g. cbn [counter_random fst].
    pose proof (Nat.mod_upper_bound g 10 ltac:(lia)) as Hlt.
    apply lt_INR in Hlt. pose proof (pos_INR (g mod 10)) as Hpos.
    replace (INR 10) with 10%R in Hlt by (simpl; lra). lra.
  - intros n k g _. cbn [counter_choice fst]. apply length_seq.
  - intros n k g _. cbn [counter_choice fst]. apply NoDup_seq.
  - intros n k g Hk. cbn [counter_choice fst]. apply Forall_forall.
    intros i Hi%elem_of_seq. lia.
Defined.

(** A state around a given grid, with the parameters of [__init__]. *)
Definition state_of (gr : Grid) (run : bool) : ForestFireSimulation :=
  mkSim gr run false (6 / 10) 0 (5 / 10) (2 / 10) 25 (3 / 10) default_sliders.

(** The invariant that links the running flag to the grid: the array has
    its shape, and while a cell burns the simulation is marked as running. *)
Definition engine_inv (s : ForestFireSimulation) : Prop :=
  grid_shape (grid s) ∧ (any_state (grid s) BURNING = true → running s = true).

(** ** Specification-side definitions

    These follow the wording of the specification, to be compared with the
    functions above that follow the source. *)

Section SpecNumbers.
Local Open Scope R_scope.

(** Clamping a value into an interval. *)
Definition clamp_spec (x lo hi : R) : R :=
  if Rlt_dec x lo then lo else if Rlt_dec hi x then hi else x.

(** [derive_fire_probability] of the specification. *)
Definition derive_fire_probability (temperature wind_str moisture : R) : R :=
  let temp_factor := clamp_spec ((temperature - 10) / 40) 0 1 in
  clamp_spec (15 / 100 + 5 / 10 * temp_factor + 2 / 10 * wind_str
              - 4 / 10 * moisture) (5 / 100) (95 / 100).

(** [d] is the shortest angular distance between the bearings [a] and [b],
    in degrees: the distance between [a] and some representative of [b]
    modulo a full turn, wrapped into the interval from 0 to 180. *)
Definition shortest_angular_distance (a b d : R) : Prop :=
  0 <= d <= 180 ∧ ∃ k : Z, d = Rabs (a - b + 360 * IZR k).

End SpecNumbers.

(** ** Statistics, repeated steps, the display and the widgets

    The parts of the program around the engine: the counts of the
    statistics card, the frame of the main loop, the geometry of the window
    and the mouse handling of the sliders and of the grid. *)

Definition PANEL_WIDTH : Z := 320.
Definition SIMULATION_SPEED : Z := 3.

(** [np.sum(grid == c)], lines 340 to 342 of [_draw_panel]. *)
Definition count_row (c : CellState) (row : list CellState) : nat :=
  length (filter (λ c', c' = c) row).

Definition count_state (g : Grid) (c : CellState) : nat :=
  sum_list (count_row c <$> g).

(** The states a cell can have after a step, given its state before. *)
Definition cell_successor (c c' : CellState) : Prop :=
  match c with
  | EMPTY => c' = EMPTY
  | TREE => c' = TREE ∨ c' = BURNING
  | BURNING => c' = BURNT
  | BURNT => c' = BURNT
  end.

(** What [_setup_display] computes from the size of the screen. *)
Record Display : Type := mkDisplay {
  win_w : Z;
  win_h : Z;
  cell_size : Z;
  grid_px_w : Z;
  grid_px_h : Z;
  grid_offset_y : Z
}.

(** [_setup_display], for a screen of [current_w] by [current_h] pixels;
    [//] is the floor division of Python. *)
Definition _setup_display (current_w current_h : Z) : Display :=
  let win_w := current_w in
  let win_h := current_h in
  let grid_area_w := (win_w - PANEL_WIDTH)%Z in
  let cell_size :=
    Z.max (Z.min (grid_area_w / GRID_WIDTH) (win_h / GRID_HEIGHT)) 6 in
  let grid_px_w := (GRID_WIDTH * cell_size)%Z in
  let grid_px_h := (GRID_HEIGHT * cell_size)%Z in
  mkDisplay win_w win_h cell_size grid_px_w grid_px_h
            ((win_h - grid_px_h) / 2)%Z.

(** [pygame.Rect] with the two methods the program uses.  A point on the
    right or bottom edge is outside; [inflate] keeps the centre and divides
    as C does. *)
Record Rect : Type := mkRect {
  rect_x : Z;
  rect_y : Z;
  rect_width : Z;
  rect_height : Z
}.

Definition collidepoint (r : Rect) (pos : Z * Z) : bool :=
  (rect_x r <=? pos.1)%Z && (pos.1 <? rect_x r + rect_width r)%Z
  && (rect_y r <=? pos.2)%Z && (pos.2 <? rect_y r + rect_height r)%Z.

Definition inflate (r : Rect) (dx dy : Z) : Rect :=
  mkRect (rect_x r - Z.quot dx 2) (rect_y r - Z.quot dy 2)
         (rect_width r + dx) (rect_height r + dy).

(** The rectangle that [_draw_grid] fills for the cell ([y], [x]). *)
Definition cell_rect (d : Display) (y x : Z) : Rect :=
  mkRect (x * cell_size d) (grid_offset_y d + y * cell_size d)
         (cell_size d) (cell_size d).

(** The grid click of [_handle_events], lines 371 to 377, from the pointer
    position: the cell under the pointer is found by floor division. *)
Definition grid_click (d : Display) (s : ForestFireSimulation) (button : Z)
  (pos : Z * Z) : ForestFireSimulation :=
  if (button =? 1)%Z then
    let '(mx, my) := pos in
    if (mx <? grid_px_w d)%Z then
      let gx := (mx / cell_size d)%Z in
      let gy := ((my - grid_offset_y d) / cell_size d)%Z in
      ignite_at s gy gx
    else s
  else s.

(** The rectangles of the five sliders and of the five buttons that
    [_create_ui] lays out in the panel. *)
Definition slider_rects (win_w : Z) : list Rect :=
  let px := (win_w - PANEL_WIDTH + 28)%Z in
  let pw := (PANEL_WIDTH - 56)%Z in
  let sy := 90%Z in
  let sp := 58%Z in
  [mkRect px sy pw 8; mkRect px (sy + sp) pw 8; mkRect px (sy + sp * 2) pw 8;
   mkRect px (sy + sp * 3) pw 8; mkRect px (sy + sp * 4) pw 8].

Definition button_rects (win_w : Z) : list Rect :=
  let px := (win_w - PANEL_WIDTH + 28)%Z in
  let pw := (PANEL_WIDTH - 56)%Z in
  let sy := 90%Z in
  let sp := 58%Z in
  let compass_size := 130%Z in
  let by_ := (sy + sp * 5 + compass_size + 70)%Z in
  let bh := 42%Z in
  let bs := 52%Z in
  [mkRect px by_ pw bh; mkRect px (by_ + bs) pw bh;
   mkRect px (by_ + bs * 2) pw bh; mkRect px (by_ + bs * 3) pw bh;
   mkRect px (by_ + bs * 4) pw bh].

(** The area in which a press reaches a widget: a slider tests its
    rectangle inflated by 20, a button its rectangle. *)
Definition hit_areas (win_w : Z) : list Rect :=
  ((λ r, inflate r 20 20) <$> slider_rects win_w) ++ button_rects win_w.

(** The events that the program distinguishes. *)
Inductive Event : Type :=
  | QUIT
  | KEYDOWN (key : Z)
  | MOUSEBUTTONDOWN (pos : Z * Z) (button : Z)
  | MOUSEBUTTONUP (pos : Z * Z) (button : Z)
  | MOUSEMOTION (pos : Z * Z)
  | OTHER.

(** A slider as a widget: its value range and value, its rectangle and the
    dragging flag. *)
Record SliderWidget : Type := mkWidget {
  w_slider : Slider;
  w_rect : Rect;
  w_dragging : bool
}.

(** [Slider.update_val(mx)] *)
Definition widget_update_val (w : SliderWidget) (mx : Z) : SliderWidget :=
  let sl := w_slider w in
  mkWidget
    (update_val sl
       (min_v sl
        + IZR (mx - rect_x (w_rect w)) / IZR (rect_width (w_rect w))
          * (max_v sl - min_v sl))%R)
    (w_rect w) (w_dragging w).

(** [Slider.handle_event]: the widget after the event and the returned
    flag. *)
Definition slider_handle_event (w : SliderWidget) (e : Event)
  : SliderWidget * bool :=
  match e with
  | MOUSEBUTTONDOWN pos _ =>
      if collidepoint (inflate (w_rect w) 20 20) pos then
        (widget_update_val (mkWidget (w_slider w) (w_rect w) true) pos.1, true)
      else (w, false)
  | MOUSEBUTTONUP _ _ => (mkWidget (w_slider w) (w_rect w) false, false)
  | MOUSEMOTION pos =>
      if w_dragging w then (widget_update_val w pos.1, true) else (w, false)
  | _ => (w, false)
  end.

(** The parameters and sliders are inside their ranges: the sliders keep the
    bounds [_create_ui] gave them and a value between them, the five
    parameters lie in the same ranges and the fire probability between 0.05
    and 0.95. *)
Definition slider_ok (sl : Slider) (lo hi : R) : Prop :=
  min_v sl = lo ∧ max_v sl = hi ∧ (lo <= val sl <= hi)%R.

Definition params_ok (s : ForestFireSimulation) : Prop :=
  (slider_ok (slider0 (sliders s)) (1 / 10) (9 / 10) ∧
   slider_ok (slider1 (sliders s)) 0 360 ∧
   slider_ok (slider2 (sliders s)) 0 1 ∧
   slider_ok (slider3 (sliders s)) 0 (5 / 10) ∧
   slider_ok (slider4 (sliders s)) 0 50) ∧
  ((1 / 10 <= tree_density s <= 9 / 10)%R ∧ (0 <= wind_dir s <= 360)%R ∧
   (0 <= wind_str s <= 1)%R ∧ (0 <= moisture s <= 5 / 10)%R ∧
   (0 <= temperature s <= 50)%R) ∧
  (5 / 100 <= fire_prob s <= 95 / 100)%R.

Section Driver.
Context {G : Type} `{RS : RandomState G}.

(** [n] consecutive calls of [_simulate_step] on the same generator. *)
Fixpoint run_steps (n : nat) (s : ForestFireSimulation) (g : G)
  : ForestFireSimulation * G :=
  match n with
  | O => (s, g)
  | S n' => let '(s', g') := _simulate_step s g in run_steps n' s' g'
  end.

(** The simulation object together with [self.last_step]. *)
Record Driver : Type := mkDriver {
  sim : ForestFireSimulation;
  last_step : Z
}.

(** One turn of the loop of [run] after the events are handled, without the
    rendering: the sync and the timed step, with [now] the value of
    [pygame.time.get_ticks()]. *)
Definition run_frame (d : Driver) (now : Z) (g : G) : Driver * G :=
  let s := _sync_params (sim d) in
  if running s && negb (paused s)
     && bool_decide (1000 / IZR SIMULATION_SPEED < IZR (now - last_step d))%R
  then
    let '(s', g') := _simulate_step s g in (mkDriver s' now, g')
  else (mkDriver s (last_step d), g).

End Driver.

(** * Properties *)

(** ** Reading and writing cells *)

Lemma cell_at_grid_set_eq (g : Grid) (y x : Z) (c : CellState) :
  is_Some (cell_at g y x) → cell_at (grid_set g y x c) y x = Some c.
Proof.
  unfold cell_at, grid_set. intros [c0 Hc0].
  destruct (g !! Z.to_nat y) as [row|] eqn:Hrow; simpl in Hc0; [|done].
  rewrite list_lookup_alter_eq, Hrow. simpl.
  apply list_lookup_insert_eq. by eapply lookup_lt_Some.
Qed.

Lemma cell_at_grid_set_ne (g : Grid) (y x y' x' : Z) (c : CellState) :
  (Z.to_nat y, Z.to_nat x) ≠ (Z.to_nat y', Z.to_nat x') →
  cell_at (grid_set g y x c) y' x' = cell_at g y' x'.
Proof.
  unfold cell_at, grid_set. intros Hne.
  destruct (decide (Z.to_nat y = Z.to_nat y')) as [Hy|Hy].
  - rewrite <- Hy, list_lookup_alter_eq.
    destruct (g !! Z.to_nat y) as [row|]; simpl; [|done].
    apply list_lookup_insert_ne. congruence.
  - by rewrite list_lookup_alter_ne.
Qed.

Lemma cell_at_grid_set (g : Grid) (y x y' x' : Z) (c : CellState) :
  (0 ≤ y)%Z → (0 ≤ x)%Z → (0 ≤ y')%Z → (0 ≤ x')%Z →
  is_Some (cell_at g y x) →
  cell_at (grid_set g y x c) y' x' =
    if decide ((y, x) = (y', x')) then Some c else cell_at g y' x'.
Proof.
  intros Hy Hx Hy' Hx' Hsome. case_decide as Heq.
  - inversion Heq; subst. by apply cell_at_grid_set_eq.
  - apply cell_at_grid_set_ne. intros [= H1 H2]. apply Heq.
    f_equal; lia.
Qed.

Lemma grid_set_shape (g : Grid) (y x : Z) (c : CellState) :
  grid_shape g → grid_shape (grid_set g y x c).
Proof.
  unfold grid_shape, grid_set. intros [Hlen Hrows]. split.
  - by rewrite length_alter.
  - apply Forall_alter; [done|]. intros row _ Hrow.
    by rewrite length_insert.
Qed.

Lemma grid_shape_cell_at (g : Grid) (y x : Z) :
  grid_shape g → in_grid y x = true → is_Some (cell_at g y x).
Proof.
  unfold grid_shape, in_grid, cell_at. intros [Hlen Hrows] Hin.
  repeat (apply andb_prop in Hin as [Hin ?]).
  destruct (lookup_lt_is_Some_2 g (Z.to_nat y)) as [row Hrow]; [lia|].
  rewrite Hrow. simpl. apply lookup_lt_is_Some_2.
  rewrite Forall_forall in Hrows.
  rewrite (Hrows row); [lia|]. by eapply list_elem_of_lookup_2.
Qed.

Lemma cell_at_in_grid (g : Grid) (y x : Z) :
  grid_shape g → (0 ≤ y)%Z → (0 ≤ x)%Z → is_Some (cell_at g y x) →
  in_grid y x = true.
Proof.
  unfold grid_shape, in_grid, cell_at. intros [Hlen Hrows] Hy Hx [c Hc].
  destruct (g !! Z.to_nat y) as [row|] eqn:Hrow; simpl in Hc; [|done].
  apply lookup_lt_Some in Hc. pose proof (lookup_lt_Some _ _ _ Hrow) as Hlt.
  rewrite Forall_forall in Hrows.
  rewrite (Hrows row) in Hc by (by eapply list_elem_of_lookup_2).
  repeat (apply andb_true_intro; split); lia.
Qed.

(** ** [argwhere] lists exactly the matching cells, once each *)

Lemma elem_of_row_where c y x0 row y' x' :
  (y', x') ∈ row_where c y x0 row ↔
  y' = y ∧ (x0 ≤ x')%Z ∧ row !! Z.to_nat (x' - x0) = Some c.
Proof.
  revert x0. induction row as [|c' row IH]; intros x0; simpl.
  - rewrite elem_of_nil. split; [done|]. by intros (_ & _ & ?).
  - rewrite elem_of_app, IH. split.
    + intros [Hhd|(-> & Hle & Hlk)].
      * case_decide; [|by apply elem_of_nil in Hhd].
        apply list_elem_of_singleton in Hhd. inversion Hhd; subst.
        repeat split; [lia|]. by replace (x0 - x0)%Z with 0%Z by lia.
      * repeat split; [lia|].
        replace (Z.to_nat (x' - x0)) with (S (Z.to_nat (x' - (x0 + 1)))) by lia.
        done.
    + intros (-> & Hle & Hlk).
      destruct (decide (x' = x0)) as [->|Hne].
      * left. replace (x0 - x0)%Z with 0%Z in Hlk by lia. simpl in Hlk.
        inversion Hlk; subst. rewrite decide_True by done.
        by apply list_elem_of_singleton.
      * right. repeat split; [lia|].
        replace (Z.to_nat (x' - x0)) with (S (Z.to_nat (x' - (x0 + 1))))
          in Hlk by lia.
        done.
Qed.

Lemma elem_of_argwhere_from c y0 g y x :
  (y, x) ∈ argwhere_from c y0 g ↔
  (y0 ≤ y)%Z ∧ (0 ≤ x)%Z ∧
  g !! Z.to_nat (y - y0) ≫= (λ row, row !! Z.to_nat x) = Some c.
Proof.
  revert y0. induction g as [|row g IH]; intros y0; simpl.
  - rewrite elem_of_nil. split; [done|]. by intros (_ & _ & ?).
  - rewrite elem_of_app, IH, elem_of_row_where. split.
    + intros [(-> & Hx & Hlk)|(Hy & Hx & Hlk)].
      * repeat split; [lia|done|].
        replace (y0 - y0)%Z with 0%Z by lia. simpl.
        by replace (x - 0)%Z with x in Hlk by lia.
      * repeat split; [lia|done|].
        replace (Z.to_nat (y - y0)) with (S (Z.to_nat (y - (y0 + 1)))) by lia.
        done.
    + intros (Hy & Hx & Hlk).
      destruct (decide (y = y0)) as [->|Hne].
      * left. replace (y0 - y0)%Z with 0%Z in Hlk by lia. simpl in Hlk.
        repeat split; [done|]. by replace (x - 0)%Z with x by lia.
      * right. repeat split; [lia|done|].
        replace (Z.to_nat (y - y0)) with (S (Z.to_nat (y - (y0 + 1))))
          in Hlk by lia.
        done.
Qed.

Lemma elem_of_argwhere (g : Grid) (c : CellState) (y x : Z) :
  (y, x) ∈ argwhere g c ↔ (0 ≤ y)%Z ∧ (0 ≤ x)%Z ∧ cell_at g y x = Some c.
Proof.
  unfold argwhere, cell_at. rewrite elem_of_argwhere_from.
  by replace (y - 0)%Z with y by lia.
Qed.

Lemma NoDup_row_where c y x0 row : NoDup (row_where c y x0 row).
Proof.
  revert x0. induction row as [|c' row IH]; intros x0; simpl.
  - constructor.
  - case_decide; simpl; [|done]. constructor; [|done].
    rewrite elem_of_row_where. lia.
Qed.

Lemma NoDup_argwhere_from c y0 g : NoDup (argwhere_from c y0 g).
Proof.
  revert y0. induction g as [|row g IH]; intros y0; simpl.
  - constructor.
  - apply NoDup_app. split; [apply NoDup_row_where|]. split; [|done].
    intros [y x]. rewrite elem_of_row_where, elem_of_argwhere_from. lia.
Qed.

Lemma NoDup_argwhere (g : Grid) (c : CellState) : NoDup (argwhere g c).
Proof. apply NoDup_argwhere_from. Qed.

(** ** A run of cell assignments *)

Lemma cell_at_grid_set_is_Some (g : Grid) (y x y' x' : Z) (c : CellState) :
  is_Some (cell_at g y' x') → is_Some (cell_at (grid_set g y x c) y' x').
Proof.
  intros Hsome.
  destruct (decide ((Z.to_nat y, Z.to_nat x) = (Z.to_nat y', Z.to_nat x')))
    as [Heq|Hne].
  - inversion Heq as [[Hy Hx]]. unfold cell_at in *. rewrite <- Hy, <- Hx in *.
    fold (cell_at g y x) in Hsome. fold (cell_at (grid_set g y x c) y x).
    by rewrite cell_at_grid_set_eq.
  - by rewrite cell_at_grid_set_ne.
Qed.

Lemma cells_of_grid_set g l y x c :
  cells_of g l → cells_of (grid_set g y x c) l.
Proof.
  unfold cells_of. intros Hl. eapply Forall_impl; [exact Hl|].
  intros p (? & ? & ?).
  repeat split; [done..|]. by apply cell_at_grid_set_is_Some.
Qed.

Lemma cell_at_foldl_set (c : CellState) (l : list (Z * Z)) (n : Grid) y x :
  (0 ≤ y)%Z → (0 ≤ x)%Z → cells_of n l →
  cell_at (foldl (λ (n : Grid) '(y, x), grid_set n y x c) n l) y x =
    if decide ((y, x) ∈ l) then Some c else cell_at n y x.
Proof.
  intros Hy Hx. revert n.
  induction l as [|[y' x'] l IH]; intros n Hl; cbn [foldl].
  - case_decide as Hin; [by apply elem_of_nil in Hin|done].
  - apply Forall_cons in Hl as [(Hy' & Hx' & Hsome) Hl]. cbn [fst snd] in *.
    rewrite IH by (by apply cells_of_grid_set).
    rewrite cell_at_grid_set by done.
    destruct (decide ((y, x) ∈ l)) as [Hin|Hnin].
    + rewrite decide_True; [done|]. by right.
    + destruct (decide ((y', x') = (y, x))) as [Heq|Hne].
      * rewrite decide_True; [done|]. rewrite Heq. by left.
      * rewrite decide_False; [done|].
        intros [Heq|Hin]%elem_of_cons; [by apply Hne|by apply Hnin].
Qed.

Lemma foldl_set_shape (c : CellState) (l : list (Z * Z)) (n : Grid) :
  grid_shape n →
  grid_shape (foldl (λ (n : Grid) '(y, x), grid_set n y x c) n l).
Proof.
  revert n. induction l as [|[y x] l IH]; intros n Hn; simpl; [done|].
  apply IH. by apply grid_set_shape.
Qed.

Lemma cells_of_argwhere (g : Grid) (c : CellState) :
  cells_of g (argwhere g c).
Proof.
  apply Forall_forall. intros [y x] (? & ? & Hc)%elem_of_argwhere. simpl.
  by rewrite Hc.
Qed.

(** ** The loops of [_simulate_step] as a run of trials *)

Section StepLoops.
Context {G : Type} `{RS : RandomState G}.
Implicit Types (s : ForestFireSimulation) (g : G).

Lemma advance_S k g : advance (S k) g = advance k (random g).2.
Proof. unfold advance. by rewrite Nat.iter_succ_r. Qed.

Lemma draw_at_S g k : draw_at g (S k) = draw_at (random g).2 k.
Proof. unfold draw_at. by rewrite advance_S. Qed.

Lemma spread_to_run_trial s by_ bx acc d :
  spread_to s by_ bx acc d =
    if tried (grid s) ((by_, bx), d) then run_trial s acc ((by_, bx), d)
    else acc.
Proof.
  destruct d as [dy dx], acc as [new g]. unfold spread_to, tried, run_trial.
  cbn [target fst snd].
  destruct (in_grid _ _ && _); [|done].
  destruct (random g) as [u g']. done.
Qed.

Lemma inner_loop_trials s by_ bx acc (offs : list (Z * Z)) :
  foldl (spread_to s by_ bx) acc offs =
    foldl (run_trial s) acc
      (filter (λ t, Is_true (tried (grid s) t)) (pair (by_, bx) <$> offs)).
Proof.
  revert acc. induction offs as [|d offs IH]; intros acc; [done|].
  cbn [foldl fmap list_fmap]. rewrite IH, spread_to_run_trial, filter_cons.
  destruct (tried (grid s) (by_, bx, d)) eqn:Ht.
  - rewrite decide_True by done. done.
  - rewrite decide_False by (simpl; tauto). done.
Qed.

Lemma outer_loop_trials s acc (burning : list (Z * Z)) :
  foldl (λ acc '(by_, bx), foldl (spread_to s by_ bx) acc OFFSETS) acc burning =
    foldl (run_trial s) acc
      (filter (λ t, Is_true (tried (grid s) t))
              (burning ≫= λ b, pair b <$> OFFSETS)).
Proof.
  revert acc. induction burning as [|[by_ bx] burning IH]; intros acc; [done|].
  cbn [foldl]. rewrite IH, inner_loop_trials, bind_cons, filter_app, foldl_app.
  done.
Qed.

(** The generator after a run of trials: one draw per trial. *)
Lemma run_trials_generator s new g ts :
  (foldl (run_trial s) (new, g) ts).2 = advance (length ts) g.
Proof.
  revert new g. induction ts as [|t ts IH]; intros new g; [done|].
  cbn [foldl length]. rewrite advance_S. unfold run_trial at 2. cbn [fst snd].
  destruct (random g) as [u g'] eqn:Hr. cbn [snd].
  destruct (Rlt_dec u (trial_prob s t)); apply IH.
Qed.

(** The buffer after a run of trials. *)
Lemma run_trials_grid s new g ts y x :
  (0 ≤ y)%Z → (0 ≤ x)%Z → cells_of new (target <$> ts) →
  cell_at (foldl (run_trial s) (new, g) ts).1 y x =
    if ignited s g ts (y, x) then Some BURNING else cell_at new y x.
Proof.
  intros Hy Hx. revert new g.
  induction ts as [|t ts IH]; intros new g Hts; [done|].
  cbn [foldl ignited]. rewrite fmap_cons in Hts.
  apply Forall_cons in Hts as [(Hty & Htx & Hsome) Hts].
  unfold run_trial at 2. cbn [fst snd].
  destruct (random g) as [u g'] eqn:Hr. cbn [fst snd].
  destruct (Rlt_dec u (trial_prob s t)) as [Hlt|Hge].
  - rewrite IH by (by apply cells_of_grid_set).
    rewrite (bool_decide_eq_true_2 (u < _)%R) by done.
    rewrite andb_true_r.
    destruct (ignited s g' ts (y, x)); [by rewrite orb_true_r|].
    rewrite orb_false_r, cell_at_grid_set by done.
    destruct (target t) as [ty tx]. cbn [fst snd].
    case_decide as Heq; [by rewrite bool_decide_eq_true_2|].
    by rewrite bool_decide_eq_false_2.
  - rewrite IH by done.
    rewrite (bool_decide_eq_false_2 (u < _)%R) by done.
    by rewrite andb_false_r.
Qed.

Lemma run_trials_shape s new g ts :
  grid_shape new → grid_shape (foldl (run_trial s) (new, g) ts).1.
Proof.
  revert new g. induction ts as [|t ts IH]; intros new g Hn; [done|].
  cbn [foldl]. unfold run_trial at 2. cbn [fst snd].
  destruct (random g) as [u g']. destruct (Rlt_dec _ _); apply IH; [|done].
  by apply grid_set_shape.
Qed.

(** A cell is ignited exactly when some trial aimed at it succeeds; the trial
    at position [i] of the run compares the draw number [i]. *)
Lemma ignited_spec s g ts p :
  ignited s g ts p = true ↔
  ∃ i t, ts !! i = Some t ∧ target t = p ∧ (draw_at g i < trial_prob s t)%R.
Proof.
  revert g. induction ts as [|t ts IH]; intros g; cbn [ignited].
  - split; [done|]. by intros (i & t & ? & _).
  - rewrite orb_true_iff, andb_true_iff, !bool_decide_eq_true, IH. split.
    + intros [[Ht Hlt]|(i & t' & Hi & Ht & Hlt)].
      * by exists 0%nat, t.
      * exists (S i), t'. by rewrite draw_at_S.
    + intros (i & t' & Hi & Ht & Hlt). destruct i as [|i].
      * left. by inversion Hi; subst.
      * right. exists i, t'. by rewrite <- draw_at_S.
Qed.

End StepLoops.

(** ** The trials of a step *)

Lemma elem_of_OFFSETS (dy dx : Z) :
  (dy, dx) ∈ OFFSETS ↔
  (-1 ≤ dy ≤ 1)%Z ∧ (-1 ≤ dx ≤ 1)%Z ∧ ¬ (dy = 0 ∧ dx = 0)%Z.
Proof.
  unfold OFFSETS. rewrite !elem_of_cons, elem_of_nil. split.
  - intros H. repeat (destruct H as [[= -> ->]|H]); try lia.
  - intros (Hy & Hx & Hne).
    assert (dy = -1 ∨ dy = 0 ∨ dy = 1)%Z as Hdy by lia.
    assert (dx = -1 ∨ dx = 0 ∨ dx = 1)%Z as Hdx by lia.
    destruct Hdy as [-> | [-> | ->]], Hdx as [-> | [-> | ->]]; try tauto.
    all: exfalso; apply Hne; done.
Qed.

Lemma NoDup_OFFSETS : NoDup OFFSETS.
Proof. apply (bool_decide_unpack _). vm_compute. exact I. Qed.

Lemma elem_of_trials (old : Grid) (b d : Z * Z) :
  (b, d) ∈ trials old ↔
  (0 ≤ b.1)%Z ∧ (0 ≤ b.2)%Z ∧ cell_at old b.1 b.2 = Some BURNING ∧
  d ∈ OFFSETS ∧
  in_grid (b.1 + d.1) (b.2 + d.2) = true ∧
  cell_at old (b.1 + d.1) (b.2 + d.2) = Some TREE.
Proof.
  unfold trials. rewrite list_elem_of_filter, list_elem_of_bind.
  unfold tried, target. cbn [fst snd].
  rewrite andb_True, bool_decide_spec, Is_true_true. split.
  - intros [[Hin Htree] (b' & Hd & Hb)].
    apply list_elem_of_fmap in Hd as (d' & [= -> ->] & Hd).
    destruct b' as [by_ bx]. apply elem_of_argwhere in Hb as (? & ? & ?).
    done.
  - intros (Hy & Hx & Hb & Hd & Hin & Htree). repeat split; [done..|].
    exists b. split.
    + apply list_elem_of_fmap. by exists d.
    + destruct b as [by_ bx]. by apply elem_of_argwhere.
Qed.

Lemma NoDup_trials (old : Grid) : NoDup (trials old).
Proof.
  unfold trials. apply NoDup_filter, NoDup_bind.
  - intros b1 b2 t _ _ (d1 & -> & _)%list_elem_of_fmap
      (d2 & [= -> _] & _)%list_elem_of_fmap.
    done.
  - intros b _. apply NoDup_fmap_2; [|apply NoDup_OFFSETS].
    intros d1 d2 [= ->]. done.
  - apply NoDup_argwhere.
Qed.

(** In a run without repetition the position of an element is the one
    [list_find] returns. *)
Lemma trial_index_lookup (old : Grid) (i : nat) (t : (Z * Z) * (Z * Z)) :
  trials old !! i = Some t → trial_index old t = i.
Proof.
  intros Hi. unfold trial_index.
  assert (list_find (λ t', t' = t) (trials old) = Some (i, t)) as ->; [|done].
  apply list_find_Some. repeat split; [done..|].
  intros j t' Hj Hlt ->.
  pose proof (NoDup_lookup _ _ _ _ (NoDup_trials old) Hi Hj). lia.
Qed.

Lemma trial_index_elem_of (old : Grid) (t : (Z * Z) * (Z * Z)) :
  t ∈ trials old → trials old !! trial_index old t = Some t.
Proof.
  intros (i & Hi)%list_elem_of_lookup. by rewrite (trial_index_lookup _ i).
Qed.

Lemma cells_of_trial_targets (old new : Grid) :
  grid_shape new → cells_of new (target <$> trials old).
Proof.
  intros Hnew. apply Forall_fmap, Forall_forall.
  intros [b d] (_ & _ & _ & _ & Hin & _)%elem_of_trials.
  unfold target. cbn [fst snd compose].
  pose proof Hin as Hin'. unfold in_grid in Hin'.
  repeat (apply andb_prop in Hin' as [Hin' ?]).
  repeat split; [lia..|]. by apply grid_shape_cell_at.
Qed.

(** ** What one step does to the grid, the generator and the flag *)

Section StepCells.
Context {G : Type} `{RS : RandomState G}.
Implicit Types (s : ForestFireSimulation) (g : G).

Lemma simulate_step_grid s g :
  grid (_simulate_step s g).1 =
    (foldl (run_trial s) (burnt_out (grid s), g) (trials (grid s))).1.
Proof.
  unfold _simulate_step. rewrite outer_loop_trials.
  fold (trials (grid s)). fold (burnt_out (grid s)).
  destruct (foldl (run_trial s) _ _) as [new g'].
  cbn [fst]. by destruct (any_state _ _).
Qed.

Lemma simulate_step_generator s g :
  (_simulate_step s g).2 = advance (length (trials (grid s))) g.
Proof.
  rewrite <- (run_trials_generator s (burnt_out (grid s))).
  unfold _simulate_step. rewrite outer_loop_trials.
  fold (trials (grid s)). fold (burnt_out (grid s)).
  by destruct (foldl (run_trial s) _ _) as [new g'].
Qed.

Lemma simulate_step_running s g :
  running (_simulate_step s g).1 =
    if any_state (grid (_simulate_step s g).1) BURNING then running s
    else false.
Proof.
  unfold _simulate_step.
  destruct (foldl _ _ (argwhere (grid s) BURNING)) as [new g'].
  unfold with_grid. cbn [fst grid].
  destruct (any_state new BURNING) eqn:Hany; cbn [running grid with_running];
    by rewrite Hany.
Qed.

(** Every field but the grid and the flag is left alone. *)
Lemma simulate_step_frame s g :
  let s' := (_simulate_step s g).1 in
  paused s' = paused s ∧ tree_density s' = tree_density s ∧
  wind_dir s' = wind_dir s ∧ wind_str s' = wind_str s ∧
  moisture s' = moisture s ∧ temperature s' = temperature s ∧
  fire_prob s' = fire_prob s ∧ sliders s' = sliders s.
Proof.
  unfold _simulate_step.
  destruct (foldl _ _ (argwhere (grid s) BURNING)) as [new g'].
  unfold with_grid. cbn [fst grid]. by destruct (any_state new BURNING).
Qed.

Lemma burnt_out_shape (old : Grid) : grid_shape old → grid_shape (burnt_out old).
Proof. apply foldl_set_shape. Qed.

Lemma simulate_step_shape s g :
  grid_shape (grid s) → grid_shape (grid (_simulate_step s g).1).
Proof.
  intros Hs. rewrite simulate_step_grid.
  by apply run_trials_shape, burnt_out_shape.
Qed.

(** A trial is only ever aimed at a cell that was a tree. *)
Lemma ignited_tree s g y x :
  ignited s g (trials (grid s)) (y, x) = true →
  cell_at (grid s) y x = Some TREE.
Proof.
  intros (i & [b d] & Hi & Ht & _)%ignited_spec.
  apply list_elem_of_lookup_2, elem_of_trials in Hi.
  destruct Hi as (_ & _ & _ & _ & _ & Htree).
  unfold target in Ht. cbn [fst snd] in Ht. by inversion Ht; subst.
Qed.

(** The cell rule that the loops implement. *)
Lemma simulate_step_cell s g y x :
  grid_shape (grid s) → (0 ≤ y)%Z → (0 ≤ x)%Z →
  cell_at (grid (_simulate_step s g).1) y x =
    match cell_at (grid s) y x with
    | Some BURNING => Some BURNT
    | Some TREE =>
        Some (if ignited s g (trials (grid s)) (y, x) then BURNING else TREE)
    | c => c
    end.
Proof.
  intros Hshape Hy Hx. rewrite simulate_step_grid.
  rewrite run_trials_grid
    by (done || by apply cells_of_trial_targets, burnt_out_shape).
  unfold burnt_out.
  rewrite cell_at_foldl_set by (done || apply cells_of_argwhere).
  destruct (ignited s g (trials (grid s)) (y, x)) eqn:Hig.
  - by rewrite (ignited_tree _ _ _ _ Hig).
  - case_decide as Hin.
    + apply elem_of_argwhere in Hin as (_ & _ & ->). done.
    + destruct (cell_at (grid s) y x) as [[]|] eqn:Hc; try done.
      exfalso. apply Hin. by apply elem_of_argwhere.
Qed.

Lemma argwhere_nil (old : Grid) (c : CellState) :
  Forall (Forall (λ c', c' ≠ c)) old → argwhere old c = [].
Proof.
  intros Hall. destruct (argwhere old c) as [|[y x] l] eqn:Hl; [done|].
  assert ((y, x) ∈ argwhere old c) as Hin by (rewrite Hl; left).
  apply elem_of_argwhere in Hin as (_ & _ & Hc). unfold cell_at in Hc.
  destruct (old !! Z.to_nat y) as [row|] eqn:Hrow; [|done]. simpl in Hc.
  rewrite Forall_forall in Hall.
  apply list_elem_of_lookup_2, Hall in Hrow. rewrite Forall_forall in Hrow.
  apply list_elem_of_lookup_2, Hrow in Hc. done.
Qed.

Lemma any_state_false (old : Grid) (c : CellState) :
  any_state old c = false ↔ Forall (Forall (λ c', c' ≠ c)) old.
Proof.
  unfold any_state. induction old as [|row old IH]; simpl.
  - split; [constructor|done].
  - rewrite orb_false_iff, IH, Forall_cons.
    assert (existsb (λ c', bool_decide (c' = c)) row = false ↔
            Forall (λ c', c' ≠ c) row) as ->; [|done].
    clear. induction row as [|c' row IH]; simpl.
    + split; [constructor|done].
    + by rewrite orb_false_iff, IH, Forall_cons, bool_decide_eq_false.
Qed.

Lemma any_state_true (old : Grid) (c : CellState) :
  any_state old c = true ↔ ∃ y x, (0 ≤ y)%Z ∧ (0 ≤ x)%Z ∧ cell_at old y x = Some c.
Proof.
  split.
  - intros Hany. destruct (argwhere old c) as [|[y x] l] eqn:Hl.
    + assert (any_state old c = false) as Hf; [|congruence].
      apply any_state_false. apply Forall_forall. intros row Hrow.
      apply Forall_forall. intros c' Hc' ->.
      apply list_elem_of_lookup in Hrow as (i & Hi).
      apply list_elem_of_lookup in Hc' as (j & Hj).
      assert ((Z.of_nat i, Z.of_nat j) ∈ argwhere old c) as Hin.
      { apply elem_of_argwhere. repeat split; [lia..|].
        unfold cell_at. rewrite !Nat2Z.id, Hi. done. }
      rewrite Hl in Hin. by apply elem_of_nil in Hin.
    + exists y, x. apply elem_of_argwhere. rewrite Hl. left.
  - intros (y & x & _ & _ & Hc).
    destruct (any_state old c) eqn:Hany; [done|].
    apply any_state_false in Hany. unfold cell_at in Hc.
    destruct (old !! Z.to_nat y) as [row|] eqn:Hrow; [|done]. simpl in Hc.
    rewrite Forall_forall in Hany.
    apply list_elem_of_lookup_2, Hany in Hrow. rewrite Forall_forall in Hrow.
    apply list_elem_of_lookup_2, Hrow in Hc. done.
Qed.

End StepCells.

(** ** The cell state machine of a step *)

Lemma zero_grid_shape : grid_shape zero_grid.
Proof.
  split; [apply length_replicate|].
  apply Forall_replicate, length_replicate.
Qed.

(** C1.  One step applies the per-cell state machine: a cell that was
    [BURNING] becomes [BURNT]; an [EMPTY] or [BURNT] cell keeps its state; a
    cell that was [TREE] or [EMPTY] is never [BURNT] afterwards.  Hence a
    grid made of [EMPTY] and [BURNT] cells only is left unchanged. *)
Theorem step_cell_state_machine {G : Type} `{RS : RandomState G}
  (s : ForestFireSimulation) (g : G) :
  grid_shape (grid s) →
  (∀ y x : Z, in_grid y x = true →
     let c := cell_at (grid s) y x in
     let c' := cell_at (grid (_simulate_step s g).1) y x in
     (c = Some BURNING → c' = Some BURNT) ∧
     (c = Some EMPTY → c' = Some EMPTY) ∧
     (c = Some BURNT → c' = Some BURNT) ∧
     (c = Some TREE ∨ c = Some EMPTY → c' ≠ Some BURNT)) ∧
  (Forall (Forall (λ c, c = EMPTY ∨ c = BURNT)) (grid s) →
   grid (_simulate_step s g).1 = grid s).
Proof.
  intros Hshape. split.
  - intros y x Hin. cbv zeta.
    unfold in_grid in Hin. repeat (apply andb_prop in Hin as [Hin ?]).
    rewrite simulate_step_cell by (done || lia).
    repeat split.
    + by intros ->.
    + by intros ->.
    + by intros ->.
    + intros [-> | ->]; [|done].
      by destruct (ignited s g (trials (grid s)) (y, x)).
  - intros Hall. rewrite simulate_step_grid. unfold burnt_out, trials.
    rewrite argwhere_nil; [done|].
    eapply Forall_impl; [exact Hall|]. intros row Hrow.
    eapply Forall_impl; [exact Hrow|]. by intros c [-> | ->].
Qed.

Lemma step_cell_state_machine_witness :
  let s := state_of (grid_set (grid_set zero_grid 5 5 BURNING) 5 6 BURNT) true in
  let s' := (_simulate_step s 0%nat).1 in
  (cell_at (grid s') 5 5 = Some BURNT ∧ cell_at (grid s') 0 0 = Some EMPTY ∧
   cell_at (grid s') 5 6 = Some BURNT ∧ cell_at (grid s') 0 0 ≠ Some BURNT) ∧
  grid (_simulate_step (state_of zero_grid false) 0%nat).1 = zero_grid.
Proof.
  cbv zeta. split.
  - pose proof (step_cell_state_machine
      (state_of (grid_set (grid_set zero_grid 5 5 BURNING) 5 6 BURNT) true)
      0%nat) as [Hcells _].
    { do 2 apply grid_set_shape. apply zero_grid_shape. }
    destruct (Hcells 5%Z 5%Z eq_refl) as (Hburning & _).
    destruct (Hcells 0%Z 0%Z eq_refl) as (_ & Hempty & _ & Hfresh).
    destruct (Hcells 5%Z 6%Z eq_refl) as (_ & _ & Hburnt & _).
    split; [|split; [|split]].
    + apply Hburning. vm_compute. reflexivity.
    + apply Hempty. vm_compute. reflexivity.
    + apply Hburnt. vm_compute. reflexivity.
    + apply Hfresh. right. vm_compute. reflexivity.
  - apply (step_cell_state_machine (state_of zero_grid false) 0%nat).
    + apply zero_grid_shape.
    + apply Forall_replicate, Forall_replicate. by left.
Defined.

(** ** Ignition of a tree *)

Section Ignition.
Context {G : Type} `{RS : RandomState G}.
Implicit Types (s : ForestFireSimulation) (g : G).

Lemma in_grid_nonneg (y x : Z) : in_grid y x = true → (0 ≤ y)%Z ∧ (0 ≤ x)%Z.
Proof.
  unfold in_grid. intros Hin. repeat (apply andb_prop in Hin as [Hin ?]). lia.
Qed.

(** The trial of a burning neighbour towards a tree is one of the trials of
    the step. *)
Lemma neighbour_trial s y x (d : Z * Z) :
  in_grid y x = true → cell_at (grid s) y x = Some TREE →
  d ∈ OFFSETS → in_grid (y - d.1) (x - d.2) = true →
  cell_at (grid s) (y - d.1) (x - d.2) = Some BURNING →
  ((y - d.1, x - d.2)%Z, d) ∈ trials (grid s).
Proof.
  intros Hin Htree Hd Hbin Hb. apply elem_of_trials. cbn [fst snd].
  apply in_grid_nonneg in Hbin as [? ?].
  replace (y - d.1 + d.1)%Z with y by lia.
  replace (x - d.2 + d.2)%Z with x by lia. done.
Qed.

(** Seen from the tree: it is ignited exactly when the trial of one of its
    burning Moore neighbours succeeds. *)
Lemma ignited_neighbour s g y x :
  grid_shape (grid s) → in_grid y x = true →
  cell_at (grid s) y x = Some TREE →
  ignited s g (trials (grid s)) (y, x) = true ↔
  ∃ d, d ∈ OFFSETS ∧ neighbour_ignites s g y x d = true.
Proof.
  intros Hshape Hin Htree. rewrite ignited_spec. unfold neighbour_ignites.
  split.
  - intros (i & [[by_ bx] [dy dx]] & Hi & Ht & Hlt).
    pose proof (trial_index_lookup _ _ _ Hi) as Hidx.
    apply list_elem_of_lookup_2, elem_of_trials in Hi. cbn [fst snd] in Hi.
    destruct Hi as (Hby & Hbx & Hb & Hd & _ & _).
    unfold target in Ht. cbn [fst snd] in Ht. inversion Ht; subst y x.
    exists (dy, dx). split; [done|]. cbn [fst snd].
    replace (by_ + dy - dy)%Z with by_ by lia.
    replace (bx + dx - dx)%Z with bx by lia.
    rewrite Hidx, !andb_true_iff, !bool_decide_eq_true.
    repeat split; [|done..].
    apply (cell_at_in_grid (grid s)); [done..|]. by rewrite Hb.
  - intros (d & Hd & Hn). cbn [fst snd] in Hn.
    rewrite !andb_true_iff, !bool_decide_eq_true in Hn.
    destruct Hn as [[Hbin Hb] Hlt].
    pose proof (neighbour_trial s y x d Hin Htree Hd Hbin Hb) as Ht.
    exists (trial_index (grid s) ((y - d.1)%Z, (x - d.2)%Z, d)), (((y - d.1)%Z, (x - d.2)%Z), d).
    split; [by apply trial_index_elem_of|]. split; [|done].
    unfold target. cbn [fst snd]. f_equal; lia.
Qed.

Lemma trial_prob_unfold s (b d : Z * Z) :
  trial_prob s (b, d) =
    (fire_prob s * _get_wind_bias (wind_str s) (wind_dir s) d.1 d.2
     * (1 - moisture s))%R.
Proof. done. Qed.

End Ignition.

(** C2.  Let a cell be a [TREE] before a step.  Every burning Moore
    neighbour, from which the tree lies at offset ([dy], [dx]), performs one
    trial, which compares a draw of [random()] with
    [fire_prob * wind_bias(dy, dx) * (1 - moisture)]; the tree is [BURNING]
    after the step exactly when one of these trials succeeds, and is still a
    [TREE] otherwise, in particular when no Moore neighbour burns.  Each
    trial has a draw of its own: two different trials of the step read
    different positions of the generator's output, and the step consumes as
    many draws as it performs trials. *)
Theorem tree_ignition_rule {G : Type} `{RS : RandomState G}
  (s : ForestFireSimulation) (g : G) (y x : Z) :
  grid_shape (grid s) → in_grid y x = true →
  cell_at (grid s) y x = Some TREE →
  let old := grid s in
  let c' := cell_at (grid (_simulate_step s g).1) y x in
  (c' = Some BURNING ↔
     ∃ dy dx : Z,
       (dy, dx) ∈ OFFSETS ∧ in_grid (y - dy) (x - dx) = true ∧
       cell_at old (y - dy) (x - dx) = Some BURNING ∧
       (draw_at g (trial_index old ((y - dy, x - dx)%Z, (dy, dx)))
        < fire_prob s * _get_wind_bias (wind_str s) (wind_dir s) dy dx
          * (1 - moisture s))%R) ∧
  (c' ≠ Some BURNING → c' = Some TREE) ∧
  ((∀ dy dx : Z, (dy, dx) ∈ OFFSETS → in_grid (y - dy) (x - dx) = true →
      cell_at old (y - dy) (x - dx) ≠ Some BURNING) → c' = Some TREE) ∧
  (∀ t1 t2, t1 ∈ trials old → t2 ∈ trials old →
      trial_index old t1 = trial_index old t2 → t1 = t2) ∧
  (∀ t, t ∈ trials old → trial_index old t < length (trials old)) ∧
  (_simulate_step s g).2 = advance (length (trials old)) g.
Proof.
  intros Hshape Hin Htree. cbv zeta.
  destruct (in_grid_nonneg _ _ Hin) as [Hy Hx].
  rewrite simulate_step_cell, Htree by done.
  assert (ignited s g (trials (grid s)) (y, x) = true ↔
          ∃ dy dx : Z,
            (dy, dx) ∈ OFFSETS ∧ in_grid (y - dy) (x - dx) = true ∧
            cell_at (grid s) (y - dy) (x - dx) = Some BURNING ∧
            (draw_at g (trial_index (grid s) ((y - dy, x - dx)%Z, (dy, dx)))
             < fire_prob s * _get_wind_bias (wind_str s) (wind_dir s) dy dx
               * (1 - moisture s))%R) as Hig.
  { rewrite ignited_neighbour by done. unfold neighbour_ignites. split.
    - intros ([dy dx] & Hd & Hn). cbn [fst snd] in Hn.
      rewrite !andb_true_iff, !bool_decide_eq_true in Hn.
      destruct Hn as [[? ?] ?]. by exists dy, dx.
    - intros (dy & dx & Hd & ? & ? & ?). exists (dy, dx). split; [done|].
      cbn [fst snd]. by rewrite !andb_true_iff, !bool_decide_eq_true. }
  split; [|split; [|split; [|split; [|split]]]].
  - rewrite <- Hig. by destruct (ignited _ _ _ _).
  - by destruct (ignited _ _ _ _).
  - intros Hnone. destruct (ignited _ _ _ _); [|done].
    destruct Hig as [Hig _].
    destruct (Hig eq_refl) as (dy & dx & Hd & Hbin & Hb & _).
    by destruct (Hnone dy dx Hd Hbin).
  - intros t1 t2 H1%trial_index_elem_of H2%trial_index_elem_of Heq.
    rewrite Heq in H1. congruence.
  - intros t Ht%trial_index_elem_of. by eapply lookup_lt_Some.
  - apply simulate_step_generator.
Qed.

Lemma tree_ignition_rule_witness :
  let s := state_of (grid_set (grid_set zero_grid 5 5 BURNING) 5 6 TREE) true in
  let c' := cell_at (grid (_simulate_step s 0%nat).1) 5 6 in
  (c' ≠ Some BURNING → c' = Some TREE) ∧
  (_simulate_step s 0%nat).2 = advance (length (trials (grid s))) 0%nat.
Proof.
  cbv zeta.
  pose proof (tree_ignition_rule
    (state_of (grid_set (grid_set zero_grid 5 5 BURNING) 5 6 TREE) true)
    0%nat 5%Z 6%Z) as Hrule.
  cbv zeta in Hrule.
  destruct Hrule as (_ & Hstay & _ & _ & _ & Hgen).
  - do 2 apply grid_set_shape. apply zero_grid_shape.
  - reflexivity.
  - vm_compute. reflexivity.
  - split; [exact Hstay|exact Hgen].
Defined.

(** ** The step as a synchronous transition *)

Lemma grid_ext (g1 g2 : Grid) :
  length g1 = length g2 →
  (∀ y x : nat,
     cell_at g1 (Z.of_nat y) (Z.of_nat x) = cell_at g2 (Z.of_nat y) (Z.of_nat x)) →
  (∀ y r1 r2, g1 !! y = Some r1 → g2 !! y = Some r2 → length r1 = length r2) →
  g1 = g2.
Proof.
  intros Hlen Hcells Hrows. apply list_eq. intros y.
  destruct (g1 !! y) as [r1|] eqn:H1, (g2 !! y) as [r2|] eqn:H2.
  - f_equal. apply list_eq. intros x. specialize (Hcells y x).
    unfold cell_at in Hcells. by rewrite !Nat2Z.id, H1, H2 in Hcells.
  - apply lookup_lt_Some in H1. apply lookup_ge_None in H2. lia.
  - apply lookup_lt_Some in H2. apply lookup_ge_None in H1. lia.
  - done.
Qed.

Lemma cell_at_sync_step {G : Type} `{RS : RandomState G}
  (s : ForestFireSimulation) (g : G) (y x : Z) :
  (0 ≤ y)%Z → (0 ≤ x)%Z →
  cell_at (sync_step s g) y x = sync_cell s g y x <$> cell_at (grid s) y x.
Proof.
  intros Hy Hx. unfold cell_at, sync_step. rewrite list_lookup_imap.
  destruct (grid s !! Z.to_nat y) as [row|]; [|done]. simpl.
  rewrite list_lookup_imap. by rewrite !Z2Nat.id by done.
Qed.

Lemma sync_step_shape {G : Type} `{RS : RandomState G}
  (s : ForestFireSimulation) (g : G) :
  grid_shape (grid s) → grid_shape (sync_step s g).
Proof.
  intros [Hlen Hrows]. unfold sync_step. split; [by rewrite length_imap|].
  apply Forall_forall. intros row (y & row0 & -> & Hrow0)%elem_of_lookup_imap.
  rewrite length_imap. rewrite Forall_forall in Hrows. apply Hrows.
  by eapply list_elem_of_lookup_2.
Qed.

(** C6.  The step is globally synchronous: the grid it installs is the image
    of the previous grid under the per-cell transition function
    [sync_cell], every cell being computed from the previous grid, the
    parameters and the draws alone; the previous grid is only read, the
    writes go to a buffer that replaces it at the end. *)
Theorem step_is_synchronous {G : Type} `{RS : RandomState G}
  (s : ForestFireSimulation) (g : G) :
  grid_shape (grid s) →
  grid (_simulate_step s g).1 = sync_step s g.
Proof.
  intros Hshape.
  pose proof (simulate_step_shape s g Hshape) as [Hlen1 Hrows1].
  pose proof (sync_step_shape s g Hshape) as [Hlen2 Hrows2].
  rewrite Forall_forall in Hrows1. rewrite Forall_forall in Hrows2.
  apply grid_ext.
  - congruence.
  - intros y x. rewrite cell_at_sync_step, simulate_step_cell by (done || lia).
    destruct (cell_at (grid s) _ _) as [[]|] eqn:Hc; try done.
    cbn [fmap option_fmap option_map sync_cell].
    assert (in_grid (Z.of_nat y) (Z.of_nat x) = true) as Hin.
    { apply (cell_at_in_grid (grid s)); [done|lia|lia|]. by rewrite Hc. }
    assert (ignited s g (trials (grid s)) (Z.of_nat y, Z.of_nat x) =
            existsb (neighbour_ignites s g (Z.of_nat y) (Z.of_nat x)) OFFSETS)
      as ->; [|done].
    apply eq_true_iff_eq. rewrite ignited_neighbour by done.
    rewrite existsb_exists. setoid_rewrite list_elem_of_In. done.
  - intros y r1 r2 H1%list_elem_of_lookup_2 H2%list_elem_of_lookup_2.
    rewrite (Hrows1 r1), (Hrows2 r2) by done. done.
Qed.

Lemma step_is_synchronous_witness :
  let s := state_of (grid_set (grid_set zero_grid 5 5 BURNING) 5 6 TREE) true in
  grid (_simulate_step s 0%nat).1 = sync_step s 0%nat.
Proof.
  apply step_is_synchronous.
  do 2 apply grid_set_shape. apply zero_grid_shape.
Defined.

(** ** Initialisation *)

Section Initialisation.
Context {G : Type} `{RS : RandomState G}.
Implicit Types (s : ForestFireSimulation) (g : G).

Lemma advance_add k n g : advance n (advance k g) = advance (k + n) g.
Proof. unfold advance. by rewrite Nat.add_comm, Nat.iter_add. Qed.

Lemma draw_at_advance k g n : draw_at (advance k g) n = draw_at g (k + n).
Proof. unfold draw_at. by rewrite advance_add. Qed.

Lemma choice_row_generator d w g : (choice_row d w g).2 = advance w g.
Proof.
  revert g. induction w as [|w IH]; intros g; [done|].
  cbn [choice_row]. rewrite advance_S, <- IH.
  destruct (random g) as [u g1]. cbn [snd].
  by destruct (choice_row d w g1).
Qed.

Lemma choice_row_length d w g : length (choice_row d w g).1 = w.
Proof.
  revert g. induction w as [|w IH]; intros g; [done|].
  cbn [choice_row]. destruct (random g) as [u g1].
  specialize (IH g1). destruct (choice_row d w g1). cbn [fst length] in *.
  by rewrite IH.
Qed.

Lemma choice_row_lookup d w g (x : nat) :
  x < w → (choice_row d w g).1 !! x = Some (choose_cell d (draw_at g x)).
Proof.
  revert g x. induction w as [|w IH]; intros g x Hx; [lia|].
  cbn [choice_row]. destruct x as [|x].
  - unfold draw_at, advance. cbn [Nat.iter nat_rect].
    destruct (random g) as [u g1], (choice_row d w g1). done.
  - rewrite draw_at_S. specialize (IH (random g).2 x ltac:(lia)).
    destruct (random g) as [u g1]. cbn [snd] in IH.
    destruct (choice_row d w g1). done.
Qed.

Lemma choice_grid_generator d h w g :
  (choice_grid d h w g).2 = advance (h * w) g.
Proof.
  revert g. induction h as [|h IH]; intros g; [done|].
  cbn [choice_grid]. pose proof (choice_row_generator d w g) as Hrow.
  destruct (choice_row d w g) as [row g1]. cbn [snd] in Hrow. subst g1.
  specialize (IH (advance w g)).
  destruct (choice_grid d h w (advance w g)) as [rows g2]. cbn [snd] in *.
  by rewrite IH, advance_add.
Qed.

Lemma choice_grid_length d h w g : length (choice_grid d h w g).1 = h.
Proof.
  revert g. induction h as [|h IH]; intros g; [done|].
  cbn [choice_grid]. destruct (choice_row d w g) as [row g1].
  specialize (IH g1). destruct (choice_grid d h w g1). cbn [fst length] in *.
  by rewrite IH.
Qed.

Lemma choice_grid_lookup d h w g (y : nat) :
  y < h →
  (choice_grid d h w g).1 !! y = Some (choice_row d w (advance (y * w) g)).1.
Proof.
  revert g y. induction h as [|h IH]; intros g y Hy; [lia|].
  cbn [choice_grid]. pose proof (choice_row_generator d w g) as Hrow.
  destruct (choice_row d w g) as [row g1] eqn:Hr. cbn [snd] in Hrow. subst g1.
  destruct y as [|y].
  - destruct (choice_grid d h w _). cbn [fst]. unfold advance.
    cbn [Nat.iter nat_rect Nat.mul]. by rewrite Hr.
  - specialize (IH (advance w g) y ltac:(lia)).
    destruct (choice_grid d h w _). cbn [fst] in *.
    rewrite advance_add in IH. cbn [lookup list_lookup].
    replace (S y * w) with (w + y * w) by lia. done.
Qed.

Lemma choice_grid_cell d h w g (y x : nat) :
  y < h → x < w →
  (choice_grid d h w g).1 !! y ≫= (λ row, row !! x) =
    Some (choose_cell d (draw_at g (y * w + x))).
Proof.
  intros Hy Hx. rewrite choice_grid_lookup by done. cbn [mbind option_bind].
  rewrite choice_row_lookup by done. by rewrite draw_at_advance.
Qed.

Lemma choice_grid_rows d h w g :
  Forall (λ row, length row = w) (choice_grid d h w g).1.
Proof.
  apply Forall_forall. intros row (y & Hy)%list_elem_of_lookup.
  pose proof (lookup_lt_Some _ _ _ Hy) as Hlt.
  rewrite choice_grid_length in Hlt. rewrite choice_grid_lookup in Hy by done.
  inversion Hy. apply choice_row_length.
Qed.

Lemma choice_grid_states d h w g :
  Forall (Forall (λ c, c = EMPTY ∨ c = TREE)) (choice_grid d h w g).1.
Proof.
  apply Forall_forall. intros row (y & Hy)%list_elem_of_lookup.
  pose proof (lookup_lt_Some _ _ _ Hy) as Hlt.
  rewrite choice_grid_length in Hlt. rewrite choice_grid_lookup in Hy by done.
  inversion Hy as [Hrow]. clear Hy.
  apply Forall_forall. intros c (x & Hx)%list_elem_of_lookup.
  pose proof (lookup_lt_Some _ _ _ Hx) as Hltx.
  rewrite choice_row_length in Hltx. rewrite choice_row_lookup in Hx by done.
  inversion Hx. unfold choose_cell. destruct (Rlt_dec _ _); auto.
Qed.

Lemma init_forest_grid s g :
  grid (_init_forest s g).1 =
    (choice_grid (tree_density s) (Z.to_nat GRID_HEIGHT) (Z.to_nat GRID_WIDTH)
                 g).1.
Proof. unfold _init_forest. by destruct (choice_grid _ _ _ _). Qed.

Lemma init_forest_generator s g :
  (_init_forest s g).2 =
    advance (Z.to_nat GRID_HEIGHT * Z.to_nat GRID_WIDTH) g.
Proof.
  rewrite <- (choice_grid_generator (tree_density s)).
  unfold _init_forest. by destruct (choice_grid _ _ _ _).
Qed.

Lemma init_forest_shape s g : grid_shape (grid (_init_forest s g).1).
Proof.
  rewrite init_forest_grid. split;
    [apply choice_grid_length|apply choice_grid_rows].
Qed.

Lemma init_forest_no_fire s g :
  any_state (grid (_init_forest s g).1) BURNING = false.
Proof.
  rewrite init_forest_grid. apply any_state_false.
  eapply Forall_impl; [apply choice_grid_states|]. intros row Hrow.
  eapply Forall_impl; [exact Hrow|]. by intros c [-> | ->].
Qed.

End Initialisation.

(** C8.  [_init_forest] replaces the whole grid by an array of the full
    shape that does not depend on the previous grid.  Every cell is decided
    by a draw of its own: with density [d] and uniform draw [u] the cell is
    [TREE] when [u] falls in the interval from [1 - d] to 1, whose length is
    [d], and [EMPTY] otherwise.  Hence every cell is [EMPTY] or [TREE] and
    no cell is [BURNING] or [BURNT]. *)
Theorem init_forest_cells {G : Type} `{RS : RandomState G}
  (s : ForestFireSimulation) (g : G) :
  let s' := (_init_forest s g).1 in
  let d := tree_density s in
  grid_shape (grid s') ∧
  (∀ y x : Z, in_grid y x = true →
     let u := draw_at g (Z.to_nat (y * GRID_WIDTH + x)) in
     cell_at (grid s') y x = Some (if Rlt_dec u (1 - d) then EMPTY else TREE)) ∧
  (∀ y x y' x' : Z, in_grid y x = true → in_grid y' x' = true →
     (y * GRID_WIDTH + x = y' * GRID_WIDTH + x')%Z → y = y' ∧ x = x') ∧
  Forall (Forall (λ c, c = EMPTY ∨ c = TREE)) (grid s') ∧
  any_state (grid s') BURNING = false ∧
  any_state (grid s') BURNT = false ∧
  (∀ s2 : ForestFireSimulation,
     tree_density s2 = d → grid (_init_forest s2 g).1 = grid s').
Proof.
  cbv zeta. split; [apply init_forest_shape|].
  assert (Forall (Forall (λ c, c = EMPTY ∨ c = TREE))
            (grid (_init_forest s g).1)) as Hstates
    by (rewrite init_forest_grid; apply choice_grid_states).
  split; [|split; [|split; [done|split; [|split]]]].
  - intros y x Hin. unfold in_grid in Hin.
    repeat (apply andb_prop in Hin as [Hin ?]).
    rewrite init_forest_grid. unfold cell_at.
    rewrite choice_grid_cell by lia. unfold choose_cell.
    by rewrite Z2Nat.inj_add, Z2Nat.inj_mul by (unfold GRID_WIDTH; lia).
  - unfold in_grid, GRID_WIDTH, GRID_HEIGHT. intros y x y' x' Hin Hin' Heq.
    repeat (apply andb_prop in Hin as [Hin ?]).
    repeat (apply andb_prop in Hin' as [Hin' ?]). lia.
  - apply init_forest_no_fire.
  - apply any_state_false.
    eapply Forall_impl; [exact Hstates|]. intros row Hrow.
    eapply Forall_impl; [exact Hrow|]. by intros c [-> | ->].
  - intros s2 Hd. by rewrite !init_forest_grid, Hd.
Qed.

Lemma init_forest_cells_witness :
  let s := state_of zero_grid false in
  cell_at (grid (_init_forest s 0%nat).1) 3 7 =
    Some (if Rlt_dec (draw_at 0%nat 367) (1 - 6 / 10) then EMPTY else TREE) ∧
  (grid_set zero_grid 1 1 BURNT ≠ zero_grid ∧
   grid (_init_forest (state_of (grid_set zero_grid 1 1 BURNT) true) 0%nat).1 =
     grid (_init_forest s 0%nat).1).
Proof.
  cbv zeta.
  pose proof (init_forest_cells (state_of zero_grid false) 0%nat) as Hinit.
  cbv zeta in Hinit. destruct Hinit as (_ & Hcell & _ & _ & _ & _ & Hindep).
  split; [|split].
  - apply (Hcell 3%Z 7%Z). reflexivity.
  - intros Heq. apply (f_equal (λ gr, cell_at gr 1 1)) in Heq.
    vm_compute in Heq. discriminate Heq.
  - apply Hindep. reflexivity.
Defined.

(** ** Starting a fire *)

Lemma picked_elem_of {A : Type} (l : list A) (idx : list nat) (picked : list A) :
  Forall2 (λ (i : nat) p, l !! i = Some p) idx picked →
  ∀ p, p ∈ picked → ∃ i, i ∈ idx ∧ l !! i = Some p.
Proof.
  intros Hf p (j & Hj)%list_elem_of_lookup.
  destruct (Forall2_lookup_r _ _ _ _ _ Hf Hj) as (i & Hi & Hp).
  exists i. split; [by eapply list_elem_of_lookup_2|done].
Qed.

Lemma picked_NoDup {A : Type} (l : list A) (idx : list nat) (picked : list A) :
  NoDup l → NoDup idx →
  Forall2 (λ (i : nat) p, l !! i = Some p) idx picked → NoDup picked.
Proof.
  intros Hl Hidx Hf. induction Hf as [|i p idx picked Hp Hf IH].
  - constructor.
  - apply NoDup_cons in Hidx as [Hi Hidx]. constructor; [|by apply IH].
    intros (i' & Hi' & Hp')%(picked_elem_of l idx); [|done].
    by rewrite (NoDup_lookup _ _ _ _ Hl Hp Hp') in Hi.
Qed.

(** *** Counting the cells that a fire start changes *)

Lemma count_row_cons (c c' : CellState) (row : list CellState) :
  count_row c (c' :: row) =
    ((if decide (c' = c) then 1 else 0) + count_row c row)%nat.
Proof. unfold count_row. rewrite filter_cons. by case_decide. Qed.

Lemma count_state_cons (c : CellState) (row : list CellState) (g : Grid) :
  count_state (row :: g) c = (count_row c row + count_state g c)%nat.
Proof. done. Qed.

Lemma count_row_insert (c' c c0 : CellState) (row : list CellState) (i : nat) :
  row !! i = Some c0 →
  (count_row c' (<[i:=c]> row) + (if decide (c0 = c') then 1 else 0)
   = count_row c' row + (if decide (c = c') then 1 else 0))%nat.
Proof.
  revert i. induction row as [|c1 row IH]; intros i Hi; [done|].
  destruct i as [|i].
  - inversion Hi; subst c1.
    change (<[0%nat:=c]> (c0 :: row)) with (c :: row).
    rewrite !count_row_cons. lia.
  - change (<[S i:=c]> (c1 :: row)) with (c1 :: <[i:=c]> row).
    rewrite !count_row_cons. specialize (IH i Hi). lia.
Qed.

Lemma count_state_grid_set (gr : Grid) (y x : Z) (c c0 c' : CellState) :
  cell_at gr y x = Some c0 →
  (count_state (grid_set gr y x c) c' + (if decide (c0 = c') then 1 else 0)
   = count_state gr c' + (if decide (c = c') then 1 else 0))%nat.
Proof.
  unfold cell_at, grid_set. generalize (Z.to_nat y) as n.
  induction gr as [|row gr IH]; intros n Hc; [done|].
  destruct n as [|n].
  - change (alter ?f 0%nat (row :: gr)) with (f row :: gr).
    rewrite !count_state_cons.
    pose proof (count_row_insert c' c c0 row (Z.to_nat x) Hc). lia.
  - change (alter ?f (S n) (row :: gr)) with (row :: alter f n gr).
    rewrite !count_state_cons. specialize (IH n Hc). lia.
Qed.

(** Setting pairwise distinct trees on fire turns as many trees into
    burning cells. *)
Lemma count_state_ignite (picked : list (Z * Z)) (gr : Grid) :
  NoDup picked →
  Forall (λ p, (0 ≤ p.1)%Z ∧ (0 ≤ p.2)%Z ∧ cell_at gr p.1 p.2 = Some TREE)
         picked →
  let gr' := foldl (λ (n : Grid) '(y, x), grid_set n y x BURNING) gr picked in
  count_state gr' BURNING = (count_state gr BURNING + length picked)%nat ∧
  (count_state gr' TREE + length picked)%nat = count_state gr TREE ∧
  count_state gr' EMPTY = count_state gr EMPTY ∧
  count_state gr' BURNT = count_state gr BURNT.
Proof.
  cbv zeta. revert gr.
  induction picked as [|[y x] picked IH]; intros gr Hnd Hall;
    [cbn [foldl length]; lia|].
  apply NoDup_cons in Hnd as [Hnin Hnd].
  apply Forall_cons in Hall as [(Hy & Hx & Htree) Hall]. cbn [fst snd] in *.
  cbn [foldl length].
  destruct (IH (grid_set gr y x BURNING) Hnd) as (IH1 & IH2 & IH3 & IH4).
  { rewrite Forall_forall in Hall. apply Forall_forall.
    intros [y' x'] Hin. destruct (Hall _ Hin) as (Hy' & Hx' & Htree').
    cbn [fst snd] in *. repeat split; [done..|].
    rewrite cell_at_grid_set_ne; [done|].
    intros [= H1 H2]. apply Hnin.
    by replace y with y' by lia; replace x with x' by lia. }
  pose proof (count_state_grid_set gr y x BURNING TREE BURNING Htree) as H1.
  pose proof (count_state_grid_set gr y x BURNING TREE TREE Htree) as H2.
  pose proof (count_state_grid_set gr y x BURNING TREE EMPTY Htree) as H3.
  pose proof (count_state_grid_set gr y x BURNING TREE BURNT Htree) as H4.
  repeat case_decide; try done; lia.
Qed.

(** C9.  [_start_fire] selects [min(3, n)] pairwise distinct cells among the
    [n] trees of the grid: the trees at the indices that
    [choice(n, min(3, n), replace=False)] returns.  The selected cells are
    coordinates of the array that hold a tree; exactly these cells become
    [BURNING], so that the number of burning cells grows and the number of
    trees shrinks by [min(3, n)], every other cell keeps its state, and the
    simulation is marked as running.  With no tree in the grid it changes
    nothing: neither the grid nor the running flag, and no draw is
    consumed. *)
Theorem start_fire_spec {G : Type} `{RS : RandomState G}
  (s : ForestFireSimulation) (g : G) :
  let trees := argwhere (grid s) TREE in
  let k := Nat.min 3 (length trees) in
  (trees = [] → _start_fire s g = Some (s, g)) ∧
  (trees ≠ [] →
     ∃ (picked : list (Z * Z)) (s' : ForestFireSimulation) (g' : G),
       _start_fire s g = Some (s', g') ∧
       Forall2 (λ (i : nat) p, trees !! i = Some p)
               (choice_distinct (length trees) k g).1 picked ∧
       g' = (choice_distinct (length trees) k g).2 ∧
       length picked = k ∧
       NoDup picked ∧
       (∀ y x, (y, x) ∈ picked →
          (0 ≤ y)%Z ∧ (0 ≤ x)%Z ∧ (y, x) ∈ trees ∧
          cell_at (grid s) y x = Some TREE ∧
          (grid_shape (grid s) → in_grid y x = true)) ∧
       (∀ y x : Z, (0 ≤ y)%Z → (0 ≤ x)%Z →
          cell_at (grid s') y x =
            if decide ((y, x) ∈ picked) then Some BURNING
            else cell_at (grid s) y x) ∧
       (count_state (grid s') BURNING
        = (count_state (grid s) BURNING + k)%nat ∧
        (count_state (grid s') TREE + k)%nat = count_state (grid s) TREE ∧
        count_state (grid s') EMPTY = count_state (grid s) EMPTY ∧
        count_state (grid s') BURNT = count_state (grid s) BURNT) ∧
       running s' = true ∧
       s' = with_running (with_grid s (grid s')) true).
Proof.
  cbv zeta. unfold _start_fire. split.
  - intros ->. done.
  - intros Hne. set (trees := argwhere (grid s) TREE) in *.
    assert (0 < length trees) as Hlen by (destruct trees; [done|simpl; lia]).
    rewrite decide_True by done.
    assert (Nat.min 3 (length trees) ≤ length trees) as Hk by lia.
    pose proof (choice_distinct_length _ _ g Hk) as Hl.
    pose proof (choice_distinct_NoDup _ _ g Hk) as Hnd.
    pose proof (choice_distinct_bound _ _ g Hk) as Hb.
    destruct (choice_distinct _ _ g) as [idx g']. cbn [fst snd] in *.
    assert (is_Some (mapM (λ i : nat, trees !! i) idx)) as [picked Hpicked].
    { apply mapM_is_Some. eapply Forall_impl; [exact Hb|].
      intros i Hi. by apply lookup_lt_is_Some_2. }
    rewrite Hpicked. cbn [mbind option_bind].
    apply mapM_Some in Hpicked.
    assert (∀ y x, (y, x) ∈ picked → (y, x) ∈ trees) as Hsub.
    { intros y x (i & _ & Hi)%(picked_elem_of trees idx); [|done].
      by eapply list_elem_of_lookup_2. }
    assert (NoDup picked) as Hndp
      by (by eapply picked_NoDup; [apply NoDup_argwhere|..]).
    assert (length picked = Nat.min 3 (length trees)) as Hlp
      by (by rewrite <- (Forall2_length _ _ _ Hpicked)).
    assert (Forall (λ p, (0 ≤ p.1)%Z ∧ (0 ≤ p.2)%Z
                         ∧ cell_at (grid s) p.1 p.2 = Some TREE) picked)
      as Hall.
    { apply Forall_forall. intros [y x] Hin%Hsub.
      by apply elem_of_argwhere in Hin. }
    eexists picked, _, g'. split; [done|]. split; [done|]. split; [done|].
    split; [done|]. split; [done|].
    split.
    { intros y x Hin. pose proof (Hsub _ _ Hin) as Hin'.
      apply elem_of_argwhere in Hin' as (Hy & Hx & Hc).
      repeat split; [done..|by apply Hsub|done|].
      intros Hshape. apply (cell_at_in_grid (grid s)); [done..|].
      by rewrite Hc. }
    split.
    { intros y x Hy Hx. cbn [grid with_grid with_running].
      apply cell_at_foldl_set; [done..|].
      eapply Forall_impl; [exact Hall|]. intros p (? & ? & Hc).
      repeat split; [done..|]. by rewrite Hc. }
    split; [|done].
    cbn [grid with_grid with_running]. rewrite <- Hlp.
    by apply count_state_ignite.
Qed.

Lemma start_fire_spec_witness :
  let none := state_of zero_grid false in
  let four :=
    state_of
      (grid_set (grid_set (grid_set (grid_set zero_grid 2 3 TREE) 2 4 TREE)
                          2 5 TREE) 2 6 TREE) false in
  _start_fire none 0%nat = Some (none, 0%nat) ∧
  ∃ s' g',
    _start_fire four 0%nat = Some (s', g') ∧
    cell_at (grid s') 2 3 = Some BURNING ∧
    cell_at (grid s') 2 4 = Some BURNING ∧
    cell_at (grid s') 2 5 = Some BURNING ∧
    cell_at (grid s') 2 6 = Some TREE ∧
    count_state (grid s') BURNING = 3%nat ∧
    count_state (grid s') TREE = 1%nat ∧
    running s' = true.
Proof.
  cbv zeta. split.
  - apply (start_fire_spec (state_of zero_grid false) 0%nat).
    vm_compute. reflexivity.
  - set (four :=
      state_of
        (grid_set (grid_set (grid_set (grid_set zero_grid 2 3 TREE) 2 4 TREE)
                            2 5 TREE) 2 6 TREE) false).
    assert (argwhere (grid four) TREE = [(2, 3); (2, 4); (2, 5); (2, 6)]%Z)
      as Htrees by (vm_compute; reflexivity).
    destruct (start_fire_spec four 0%nat) as [_ Hsome]. cbv zeta in Hsome.
    rewrite Htrees in Hsome.
    destruct Hsome
      as (picked & s' & g' & Heq & Hidx & _ & _ & _ & _ & Hcells & Hcount
          & Hrun & _); [discriminate|].
    change (choice_distinct _ _ 0%nat).1 with [0; 1; 2]%nat in Hidx.
    apply Forall2_cons_inv_l in Hidx as (p0 & k0 & [= <-] & Hidx & ->).
    apply Forall2_cons_inv_l in Hidx as (p1 & k1 & [= <-] & Hidx & ->).
    apply Forall2_cons_inv_l in Hidx as (p2 & k2 & [= <-] & Hidx & ->).
    apply Forall2_nil_inv_l in Hidx as ->.
    destruct Hcount as (Hburning & Htree & _).
    exists s', g'. split; [exact Heq|].
    split; [rewrite Hcells by lia; by rewrite decide_True by (repeat constructor)|].
    split; [rewrite Hcells by lia; by rewrite decide_True by (repeat constructor)|].
    split; [rewrite Hcells by lia; by rewrite decide_True by (repeat constructor)|].
    split.
    { rewrite Hcells by lia. rewrite decide_False.
      - vm_compute. reflexivity.
      - intros Hin. repeat (apply elem_of_cons in Hin as [[=]|Hin]).
        by apply elem_of_nil in Hin. }
    split; [rewrite Hburning; vm_compute; reflexivity|].
    split; [|exact Hrun].
    assert (count_state (grid four) TREE = 4%nat) as Hfour
      by (vm_compute; reflexivity).
    rewrite Hfour in Htree. cbn [length Nat.min] in Htree. lia.
Defined.

(** ** The running flag *)

Section RunningFlag.
Context {G : Type} `{RS : RandomState G}.
Implicit Types (s : ForestFireSimulation) (g : G).

(** Fire does not appear from nothing: a cell burns after a step only if a
    cell burnt before it. *)
Lemma step_fire_needs_fire s g :
  grid_shape (grid s) →
  any_state (grid (_simulate_step s g).1) BURNING = true →
  any_state (grid s) BURNING = true.
Proof.
  intros Hshape (y & x & Hy & Hx & Hc)%any_state_true.
  rewrite simulate_step_cell in Hc by done.
  destruct (cell_at (grid s) y x) as [[]|] eqn:Hold; try done.
  destruct (ignited s g (trials (grid s)) (y, x)) eqn:Hig; [|done].
  apply ignited_spec in Hig as (i & [b d] & Hi & _).
  apply list_elem_of_lookup_2, elem_of_trials in Hi.
  destruct Hi as (? & ? & ? & _). apply any_state_true. by exists b.1, b.2.
Qed.

Lemma reset_forest_grid s g :
  grid (_reset_forest s g).1 =
    grid (_init_forest (with_tree_density s (val (slider0 (sliders s)))) g).1.
Proof. unfold _reset_forest. by destruct (_init_forest _ g) as [s2 g']. Qed.

Lemma reset_forest_flags s g :
  running (_reset_forest s g).1 = false ∧ paused (_reset_forest s g).1 = false.
Proof. unfold _reset_forest. by destruct (_init_forest _ g) as [s2 g']. Qed.

Lemma reset_forest_inv s g : engine_inv (_reset_forest s g).1.
Proof.
  split.
  - rewrite reset_forest_grid. apply init_forest_shape.
  - rewrite reset_forest_grid, init_forest_no_fire. done.
Qed.

(** [_randomize] ends with [_reset_forest]. *)
Lemma randomize_reset s g :
  ∃ s1 g1, _randomize s g = _reset_forest s1 g1.
Proof.
  unfold _randomize, uniform.
  destruct (random g) as [u0 g0]. destruct (random g0) as [u1 g1].
  destruct (random g1) as [u2 g2]. destruct (random g2) as [u3 g3].
  destruct (random g3) as [u4 g4]. by eexists _, _.
Qed.

Lemma start_fire_inv s g s' g' :
  engine_inv s → _start_fire s g = Some (s', g') → engine_inv s'.
Proof.
  intros [Hshape Hrun]. unfold _start_fire. case_decide.
  - destruct (choice_distinct _ _ g) as [idx g1].
    destruct (mapM _ idx) as [picked|]; [|done]. cbn [mbind option_bind].
    intros [= <- <-]. split; [|done].
    by apply foldl_set_shape.
  - by intros [= <- <-].
Qed.

Lemma simulate_step_inv s g : engine_inv s → engine_inv (_simulate_step s g).1.
Proof.
  intros [Hshape Hrun]. split; [by apply simulate_step_shape|].
  intros Hany. rewrite simulate_step_running, Hany.
  by apply Hrun, (step_fire_needs_fire s g).
Qed.

Lemma ignite_at_inv s gy gx : engine_inv s → engine_inv (ignite_at s gy gx).
Proof.
  intros [Hshape Hrun]. unfold ignite_at. destruct (in_grid gy gx && _); [|done].
  split; [|done]. by apply grid_set_shape.
Qed.

Lemma move_slider_inv s i v : engine_inv s → engine_inv (move_slider s i v).
Proof. intros Hinv. by destruct i as [|[|[|[|[|]]]]]. Qed.

(** Every state of the program satisfies the invariant. *)
Lemma reachable_inv s : reachable s → engine_inv s.
Proof.
  induction 1 as [g| s g s' g' _ IH Hstart | s g _ _ | s _ IH | s g _ IH
                 | s g _ _ | s _ IH | s gy gx _ IH | s i v _ IH].
  - unfold __init__. split; [apply init_forest_shape|].
    by rewrite init_forest_no_fire.
  - by eapply start_fire_inv.
  - apply reset_forest_inv.
  - done.
  - by apply simulate_step_inv.
  - destruct (randomize_reset s g) as (s1 & g1 & ->). apply reset_forest_inv.
  - done.
  - by apply ignite_at_inv.
  - by apply move_slider_inv.
Qed.

(** Without a tree nothing can be ignited. *)
Lemma no_tree_no_trials (old : Grid) :
  any_state old TREE = false → trials old = [].
Proof.
  intros Hno. destruct (trials old) as [|[b d] ts] eqn:Hts; [done|].
  assert ((b, d) ∈ trials old) as Hin by (rewrite Hts; left).
  apply elem_of_trials in Hin as (_ & _ & _ & _ & Hin & Htree).
  apply in_grid_nonneg in Hin as [? ?].
  assert (any_state old TREE = true) as Hyes; [|congruence].
  apply any_state_true. by exists (b.1 + d.1)%Z, (b.2 + d.2)%Z.
Qed.

End RunningFlag.

(** C7.  The running flag reports whether a cell still burns after a step:
    in every state the program can reach, after a step the flag is false
    exactly when no cell of the new grid is [BURNING].  In particular, on a
    grid without any [TREE] (a single burning cell, say) one step leaves no
    [BURNING] cell and the flag false. *)
Theorem step_reports_burning {G : Type} `{RS : RandomState G}
  (s : ForestFireSimulation) (g : G) :
  let s' := (_simulate_step s g).1 in
  (reachable s →
     (running s' = false ↔ any_state (grid s') BURNING = false)) ∧
  (grid_shape (grid s) → any_state (grid s) TREE = false →
     any_state (grid s') BURNING = false ∧ running s' = false).
Proof.
  cbv zeta. split.
  - intros [Hshape Hrun]%reachable_inv%(simulate_step_inv s g).
    rewrite simulate_step_running in *.
    destruct (any_state (grid (_simulate_step s g).1) BURNING); [|done].
    split; [|done]. intros Hf. by rewrite Hrun in Hf.
  - intros Hshape Hno.
    assert (any_state (grid (_simulate_step s g).1) BURNING = false) as Hnone.
    { destruct (any_state _ BURNING) eqn:Hany; [|done].
      apply any_state_true in Hany as (y & x & Hy & Hx & Hc).
      rewrite simulate_step_cell in Hc by done.
      rewrite (no_tree_no_trials _ Hno) in Hc. cbn [ignited] in Hc.
      by destruct (cell_at (grid s) y x) as [[]|]. }
    split; [done|]. by rewrite simulate_step_running, Hnone.
Qed.

Lemma step_reports_burning_witness :
  let s1 := (__init__ 0%nat).1 in
  let s2 := state_of (grid_set zero_grid 4 4 BURNING) true in
  (running (_simulate_step s1 0%nat).1 = false ↔
   any_state (grid (_simulate_step s1 0%nat).1) BURNING = false) ∧
  (running s2 = true ∧ cell_at (grid s2) 4 4 = Some BURNING ∧
   any_state (grid (_simulate_step s2 0%nat).1) BURNING = false ∧
   running (_simulate_step s2 0%nat).1 = false).
Proof.
  cbv zeta. split.
  - apply (step_reports_burning (__init__ 0%nat).1 0%nat).
    apply reach_init.
  - split; [reflexivity|]. split; [vm_compute; reflexivity|].
    apply (step_reports_burning
             (state_of (grid_set zero_grid 4 4 BURNING) true) 0%nat).
    + apply grid_set_shape, zero_grid_shape.
    + vm_compute. reflexivity.
Defined.

(** ** Randomize *)

Section Randomize.
Context {G : Type} `{RS : RandomState G}.
Implicit Types (s : ForestFireSimulation) (g : G).

Lemma draw_at_range g k : (0 <= draw_at g k < 1)%R.
Proof. apply random_range. Qed.

Lemma uniform_draw a b g :
  uniform a b g = ((a + (b - a) * draw_at g 0)%R, advance 1 g).
Proof.
  unfold uniform, draw_at, advance. cbn [Nat.iter nat_rect].
  by destruct (random g).
Qed.

Lemma randomize_unfold s g :
  _randomize s g = _reset_forest (randomized s g) (advance 5 g).
Proof.
  unfold _randomize, randomized.
  rewrite (uniform_draw _ _ g). cbv iota beta.
  rewrite (uniform_draw _ _ (advance 1 g)). cbv iota beta.
  rewrite (uniform_draw _ _ (advance 1 (advance 1 g))). cbv iota beta.
  rewrite (uniform_draw _ _ (advance 1 (advance 1 (advance 1 g)))).
  cbv iota beta.
  rewrite (uniform_draw _ _ (advance 1 (advance 1 (advance 1 (advance 1 g))))).
  cbv iota beta. rewrite !advance_add, !draw_at_advance.
  cbn [Nat.add slider0 slider1 slider2 slider3 slider4]. done.
Qed.

End Randomize.

(** C10.  [_randomize] is never a change of parameters only.  It draws the
    five slider values from their sub-ranges and syncs the parameters to
    them, and it also throws the grid away: the new grid is a fresh forest of
    [EMPTY] and [TREE] cells drawn at the new tree density from the draws
    that follow, the same whatever the previous grid and flags were; both
    the running and the paused flag are cleared. *)
Theorem randomize_resets_forest {G : Type} `{RS : RandomState G}
  (s : ForestFireSimulation) (g : G) :
  let s' := (_randomize s g).1 in
  ((3 / 10 <= tree_density s' <= 8 / 10)%R ∧
   (0 <= wind_dir s' < 360)%R ∧
   (2 / 10 <= wind_str s' <= 9 / 10)%R ∧
   (0 <= moisture s' <= 4 / 10)%R ∧
   (10 <= temperature s' <= 45)%R) ∧
  (val (slider0 (sliders s')) = tree_density s' ∧
   val (slider1 (sliders s')) = wind_dir s' ∧
   val (slider2 (sliders s')) = wind_str s' ∧
   val (slider3 (sliders s')) = moisture s' ∧
   val (slider4 (sliders s')) = temperature s') ∧
  grid s' =
    (choice_grid (tree_density s') (Z.to_nat GRID_HEIGHT)
                 (Z.to_nat GRID_WIDTH) (advance 5 g)).1 ∧
  grid_shape (grid s') ∧
  Forall (Forall (λ c, c = EMPTY ∨ c = TREE)) (grid s') ∧
  (∀ s2 : ForestFireSimulation, grid (_randomize s2 g).1 = grid s') ∧
  running s' = false ∧ paused s' = false.
Proof.
  cbv zeta.
  assert (∀ s0 : ForestFireSimulation,
            grid (_randomize s0 g).1 =
              (choice_grid (3 / 10 + (8 / 10 - 3 / 10) * draw_at g 0)
                 (Z.to_nat GRID_HEIGHT) (Z.to_nat GRID_WIDTH) (advance 5 g)).1)
    as Hgrid.
  { intros s0. by rewrite randomize_unfold, reset_forest_grid, init_forest_grid. }
  assert (tree_density (_randomize s g).1
          = (3 / 10 + (8 / 10 - 3 / 10) * draw_at g 0)%R
          ∧ wind_dir (_randomize s g).1 = (0 + (360 - 0) * draw_at g 1)%R
          ∧ wind_str (_randomize s g).1
            = (2 / 10 + (9 / 10 - 2 / 10) * draw_at g 2)%R
          ∧ moisture (_randomize s g).1 = (0 + (4 / 10 - 0) * draw_at g 3)%R
          ∧ temperature (_randomize s g).1 = (10 + (45 - 10) * draw_at g 4)%R
          ∧ sliders (_randomize s g).1 = sliders (randomized s g))
    as (Hd & Hwd & Hws & Hm & Ht & Hsl).
  { rewrite randomize_unfold. unfold _reset_forest, _init_forest.
    destruct (choice_grid _ _ _ _) as [arr g']. done. }
  pose proof (draw_at_range g 0). pose proof (draw_at_range g 1).
  pose proof (draw_at_range g 2). pose proof (draw_at_range g 3).
  pose proof (draw_at_range g 4).
  split; [rewrite Hd, Hwd, Hws, Hm, Ht; repeat split; lra|].
  split; [by rewrite Hsl, Hd, Hwd, Hws, Hm, Ht|].
  split; [by rewrite Hgrid, Hd|].
  split; [rewrite randomize_unfold, reset_forest_grid; apply init_forest_shape|].
  split; [rewrite Hgrid; apply choice_grid_states|].
  split; [intros s2; by rewrite !Hgrid|].
  rewrite randomize_unfold. apply reset_forest_flags.
Qed.

(** ** The derived fire probability *)

Section FireProbability.
Local Open Scope R_scope.

Lemma clamp_clamp_spec (x lo hi : R) :
  lo <= hi → clamp x lo hi = clamp_spec x lo hi.
Proof.
  intros Hle. unfold clamp, clamp_spec, Rmax, Rmin.
  repeat (destruct (Rle_dec _ _) || destruct (Rlt_dec _ _)); lra.
Qed.

Lemma clamp_bounds (x lo hi : R) : lo <= hi → lo <= clamp x lo hi <= hi.
Proof.
  intros Hle. unfold clamp, Rmax, Rmin.
  repeat destruct (Rle_dec _ _); lra.
Qed.

Lemma clamp_monotone (x1 x2 lo hi : R) :
  x1 <= x2 → clamp x1 lo hi <= clamp x2 lo hi.
Proof.
  intros Hle. unfold clamp, Rmax, Rmin.
  repeat destruct (Rle_dec _ _); lra.
Qed.

Lemma sync_params_fire_prob (s : ForestFireSimulation) :
  fire_prob (_sync_params s) =
    clamp (15 / 100
           + 5 / 10 * clamp ((val (slider4 (sliders s)) - 10) / 40) 0 1
           + 2 / 10 * val (slider2 (sliders s))
           - 4 / 10 * val (slider3 (sliders s))) (5 / 100) (95 / 100).
Proof. done. Qed.

End FireProbability.

(** C4.  The fire probability that [_sync_params] stores is
    [derive_fire_probability] of the specification, applied to the
    temperature, wind strength and moisture that it has just copied from
    the sliders: a clamped linear temperature factor, then a clamped linear
    combination.  It is a function of the parameter values alone: two states
    with the same slider values get the same parameters and the same fire
    probability, whatever their grids and flags. *)
Theorem sync_params_derives_fire_prob (s : ForestFireSimulation) :
  let s' := _sync_params s in
  (tree_density s' = val (slider0 (sliders s)) ∧
   wind_dir s' = val (slider1 (sliders s)) ∧
   wind_str s' = val (slider2 (sliders s)) ∧
   moisture s' = val (slider3 (sliders s)) ∧
   temperature s' = val (slider4 (sliders s))) ∧
  fire_prob s' =
    derive_fire_probability (temperature s') (wind_str s') (moisture s') ∧
  (∀ s2 : ForestFireSimulation,
     val (slider2 (sliders s2)) = val (slider2 (sliders s)) →
     val (slider3 (sliders s2)) = val (slider3 (sliders s)) →
     val (slider4 (sliders s2)) = val (slider4 (sliders s)) →
     fire_prob (_sync_params s2) = fire_prob s') ∧
  (grid s' = grid s ∧ running s' = running s ∧ paused s' = paused s ∧
   sliders s' = sliders s).
Proof.
  cbv zeta. split; [done|]. split; [|split; [|done]].
  - rewrite sync_params_fire_prob. unfold derive_fire_probability.
    cbn [_sync_params temperature wind_str moisture].
    rewrite <- !clamp_clamp_spec by lra. done.
  - intros s2 H2 H3 H4. rewrite !sync_params_fire_prob. by rewrite H2, H3, H4.
Qed.

Lemma sync_params_derives_fire_prob_witness :
  fire_prob (_sync_params (state_of zero_grid false)) =
    fire_prob
      (_sync_params (state_of (grid_set zero_grid 1 1 BURNING) true)).
Proof.
  symmetry.
  apply (sync_params_derives_fire_prob (state_of zero_grid false));
    reflexivity.
Defined.

(** With the initial parameters (25 degrees, wind strength 0.5, moisture
    0.2) the fire probability is 0.3575. *)
Example sync_params_default :
  fire_prob (_sync_params (state_of zero_grid false)) = (3575 / 10000)%R.
Proof.
  rewrite sync_params_fire_prob. cbn [state_of sliders default_sliders val
    slider2 slider3 slider4]. unfold clamp, Rmax, Rmin.
  repeat destruct (Rle_dec _ _); lra.
Qed.

(** C5.  The fire probability that [_sync_params] derives does not decrease
    when the temperature or the wind strength increases, does not increase
    when the moisture increases, the other inputs being the same; and it
    always lies between 0.05 and 0.95. *)
Theorem fire_prob_monotone_bounded (s1 s2 : ForestFireSimulation) :
  let t1 := val (slider4 (sliders s1)) in
  let t2 := val (slider4 (sliders s2)) in
  let w1 := val (slider2 (sliders s1)) in
  let w2 := val (slider2 (sliders s2)) in
  let m1 := val (slider3 (sliders s1)) in
  let m2 := val (slider3 (sliders s2)) in
  let p1 := fire_prob (_sync_params s1) in
  let p2 := fire_prob (_sync_params s2) in
  ((t1 <= t2)%R → w1 = w2 → m1 = m2 → (p1 <= p2)%R) ∧
  ((w1 <= w2)%R → t1 = t2 → m1 = m2 → (p1 <= p2)%R) ∧
  ((m1 <= m2)%R → t1 = t2 → w1 = w2 → (p2 <= p1)%R) ∧
  (5 / 100 <= p1 <= 95 / 100)%R.
Proof.
  cbv zeta. rewrite !sync_params_fire_prob.
  split; [|split; [|split]].
  - intros Ht -> ->. apply clamp_monotone.
    pose proof (clamp_monotone ((val (slider4 (sliders s1)) - 10) / 40)
                  ((val (slider4 (sliders s2)) - 10) / 40) 0 1
                  ltac:(lra)). lra.
  - intros Hw -> ->. apply clamp_monotone. lra.
  - intros Hm -> ->. apply clamp_monotone. lra.
  - apply clamp_bounds. lra.
Qed.

Lemma fire_prob_monotone_bounded_witness :
  let cold := state_of zero_grid false in
  let hot :=
    with_sliders cold
      (mkSliders (slider0 default_sliders) (slider1 default_sliders)
         (slider2 default_sliders) (slider3 default_sliders)
         (set_val (slider4 default_sliders) 40)) in
  let dry :=
    with_sliders cold
      (mkSliders (slider0 default_sliders) (slider1 default_sliders)
         (slider2 default_sliders) (set_val (slider3 default_sliders) 0)
         (slider4 default_sliders)) in
  let windy :=
    with_sliders cold
      (mkSliders (slider0 default_sliders) (slider1 default_sliders)
         (set_val (slider2 default_sliders) 1) (slider3 default_sliders)
         (slider4 default_sliders)) in
  (fire_prob (_sync_params cold) <= fire_prob (_sync_params hot))%R ∧
  (fire_prob (_sync_params cold) <= fire_prob (_sync_params windy))%R ∧
  (fire_prob (_sync_params cold) <= fire_prob (_sync_params dry))%R.
Proof.
  cbv zeta.
  set (cold := state_of zero_grid false).
  split; [|split].
  - match goal with |- (_ <= fire_prob (_sync_params ?hot))%R =>
      destruct (fire_prob_monotone_bounded cold hot) as (Htemp & _) end.
    apply Htemp; cbn; (reflexivity || lra).
  - match goal with |- (_ <= fire_prob (_sync_params ?windy))%R =>
      destruct (fire_prob_monotone_bounded cold windy) as (_ & Hwind & _) end.
    apply Hwind; cbn; (reflexivity || lra).
  - match goal with |- (_ <= fire_prob (_sync_params ?dry))%R =>
      destruct (fire_prob_monotone_bounded dry cold) as (_ & _ & Hmoist & _)
    end.
    apply Hmoist; cbn; (reflexivity || lra).
Defined.

(** ** The wind bias *)

Section WindBias.
Local Open Scope R_scope.

Lemma atan_m1 : atan (-1) = - (PI / 4).
Proof.
  replace (IZR (-1)) with (Ropp 1) by lra. by rewrite atan_opp, atan_1.
Qed.

Ltac atan2_cases :=
  unfold bearing, atan2;
  change (- (-1))%Z with 1%Z; change (- (1))%Z with (-1)%Z;
  change (- 0)%Z with 0%Z;
  repeat (destruct (Rlt_dec _ _) || destruct (Rle_dec _ _)); try lra.

(** The bearings of the eight neighbour offsets: north is 0, east is 90,
    south is 180 and west is -90. *)
Lemma bearing_values :
  bearing (-1) 0 = 0 ∧ bearing 1 0 = 180 ∧
  bearing 0 (-1) = -90 ∧ bearing 0 1 = 90 ∧
  bearing (-1) (-1) = -45 ∧ bearing (-1) 1 = 45 ∧
  bearing 1 (-1) = -135 ∧ bearing 1 1 = 135.
Proof.
  pose proof PI_neq0 as Hpi.
  assert (0 / 1 = 0) as E01 by lra.
  assert (0 / -1 = 0) as E0m1 by lra.
  assert (-1 / 1 = -1) as Em11 by lra.
  assert (1 / 1 = 1) as E11 by lra.
  assert (-1 / -1 = 1) as Em1m1 by lra.
  assert (1 / -1 = -1) as E1m1 by lra.
  repeat split; atan2_cases;
    rewrite ?E01, ?E0m1, ?Em11, ?E11, ?Em1m1, ?E1m1, ?atan_0, ?atan_1, ?atan_m1;
    field; exact Hpi.
Qed.

Lemma bearing_range (dy dx : Z) :
  (dy, dx) ∈ OFFSETS → -180 < bearing dy dx <= 180.
Proof.
  destruct bearing_values as (H1 & H2 & H3 & H4 & H5 & H6 & H7 & H8).
  unfold OFFSETS. rewrite !elem_of_cons, elem_of_nil. intros H.
  repeat (destruct H as [[= -> ->]|H]); [lra..|done].
Qed.

Lemma radians_opp (d : R) : radians (- d) = - radians d.
Proof. unfold radians. lra. Qed.

(** The value of [diff] with which [_get_wind_bias] calls [cos] is the
    shortest angular distance up to sign. *)
Lemma wind_diff_distance (wind_dir : R) (dy dx : Z) :
  (dy, dx) ∈ OFFSETS → 0 <= wind_dir < 360 →
  ∃ d, shortest_angular_distance (bearing dy dx) wind_dir d ∧
       (wind_diff wind_dir dy dx = d ∨ wind_diff wind_dir dy dx = - d).
Proof.
  intros Hrange%bearing_range Hwd. unfold wind_diff, shortest_angular_distance.
  set (a := bearing dy dx - wind_dir). assert (-540 < a <= 180) by (unfold a; lra).
  destruct (Rlt_dec 180 (Rabs a)) as [Hbig|Hsmall].
  - assert (a < -180) as Ha.
    { revert Hbig. unfold Rabs. destruct (Rcase_abs a); lra. }
    exists (Rabs (a + 360)). split.
    + split; [|exists 1%Z; f_equal; lra].
      unfold Rabs. destruct (Rcase_abs (a + 360)); lra.
    + unfold Rabs. destruct (Rcase_abs a), (Rcase_abs (a + 360)); lra.
  - exists (Rabs a). split; [|by left].
    split; [split; [apply Rabs_pos|lra]|].
    exists 0%Z. f_equal. lra.
Qed.

Lemma shortest_angular_distance_unique (a b d1 d2 : R) :
  shortest_angular_distance a b d1 → shortest_angular_distance a b d2 →
  d1 = d2.
Proof.
  intros [Hd1 [k1 H1]] [Hd2 [k2 H2]].
  destruct (Z.lt_trichotomy k1 k2) as [Hlt | [-> | Hgt]]; [|congruence|].
  - assert (IZR k1 + 1 <= IZR k2) by (rewrite <- plus_IZR; apply IZR_le; lia).
    revert H1 H2. unfold Rabs.
    destruct (Rcase_abs _), (Rcase_abs _); lra.
  - assert (IZR k2 + 1 <= IZR k1) by (rewrite <- plus_IZR; apply IZR_le; lia).
    revert H1 H2. unfold Rabs.
    destruct (Rcase_abs _), (Rcase_abs _); lra.
Qed.

Lemma get_wind_bias_diff (wind_str wind_dir : R) (dy dx : Z) :
  wind_str ≠ 0 →
  _get_wind_bias wind_str wind_dir dy dx =
    Rmax (1 / 10) (1 + wind_str * cos (radians (wind_diff wind_dir dy dx))).
Proof.
  intros Hne. unfold _get_wind_bias, wind_diff.
  destruct (Req_dec_T wind_str 0); done.
Qed.

End WindBias.

(** C3.  For every neighbour offset and every wind direction from 0 up to
    360 (excluded): without wind the bias is exactly 1; with wind it is
    [max(0.1, 1 + wind_str * cos(radians(diff)))] where [diff], between 0 and
    180, is the shortest angular distance from the compass bearing
    [atan2(dx, -dy)] of the offset, in degrees, to the wind direction. *)
Theorem wind_bias_formula (wind_str wind_dir : R) (dy dx : Z) :
  (dy, dx) ∈ OFFSETS → (0 <= wind_dir < 360)%R →
  (wind_str = 0%R → _get_wind_bias wind_str wind_dir dy dx = 1%R) ∧
  (wind_str ≠ 0%R →
     ∃ diff : R,
       shortest_angular_distance
         (atan2 (IZR dx) (IZR (- dy)) * 180 / PI) wind_dir diff ∧
       (0 <= diff <= 180)%R ∧
       _get_wind_bias wind_str wind_dir dy dx =
         Rmax (1 / 10) (1 + wind_str * cos (radians diff))).
Proof.
  intros Hoff Hwd. split.
  - intros ->. unfold _get_wind_bias. by destruct (Req_dec_T 0 0).
  - intros Hne.
    destruct (wind_diff_distance wind_dir dy dx Hoff Hwd) as (d & Hd & Hdiff).
    exists d. split; [exact Hd|]. split; [apply Hd|].
    rewrite get_wind_bias_diff by done.
    destruct Hdiff as [-> | ->]; [done|].
    by rewrite radians_opp, cos_neg.
Qed.

Lemma wind_bias_formula_witness :
  _get_wind_bias 0 300 1 (-1) = 1%R ∧
  ∃ diff : R,
    (0 <= diff <= 180)%R ∧
    _get_wind_bias (5 / 10) 300 1 (-1) =
      Rmax (1 / 10) (1 + 5 / 10 * cos (radians diff)).
Proof.
  assert ((1, -1)%Z ∈ OFFSETS) as Hoff by (apply elem_of_OFFSETS; lia).
  assert (0 <= 300 < 360)%R as Hwd by lra.
  split.
  - by apply (wind_bias_formula 0 300 1 (-1) Hoff Hwd).
  - destruct (wind_bias_formula (5 / 10) 300 1 (-1) Hoff Hwd) as [_ Hwind].
    destruct Hwind as (diff & _ & Hrange & Heq); [lra|].
    by exists diff.
Defined.

(** The local variable [diff] itself is not always between 0 and 180: for
    the south-west neighbour and a wind direction of 300 degrees it is -75,
    the shortest angular distance being 75.  The cosine does not see the
    sign. *)
Example wind_diff_south_west : wind_diff 300 1 (-1) = (-75)%R.
Proof.
  unfold wind_diff.
  destruct bearing_values as (_ & _ & _ & _ & _ & _ & -> & _).
  replace (-135 - 300)%R with (- (435))%R by lra.
  rewrite Rabs_Ropp, Rabs_pos_eq by lra.
  destruct (Rlt_dec 180 435); lra.
Qed.

(** A step never raises the running flag; it can only clear it. *)
Lemma simulate_step_never_starts {G : Type} `{RS : RandomState G}
  (s : ForestFireSimulation) (g : G) :
  running s = false → running (_simulate_step s g).1 = false.
Proof.
  intros Hoff. rewrite simulate_step_running, Hoff.
  by destruct (any_state _ _).
Qed.

(** The threshold of a trial is not always below 1: at 50 degrees, full wind
    towards the north and no moisture, the trial towards the northern
    neighbour compares the draw with 1.7, so that it always succeeds. *)
Example trial_threshold_above_one :
  let hot :=
    _sync_params
      (with_sliders (state_of zero_grid false)
         (mkSliders (slider0 default_sliders)
            (set_val (slider1 default_sliders) 0)
            (set_val (slider2 default_sliders) 1)
            (set_val (slider3 default_sliders) 0)
            (set_val (slider4 default_sliders) 50))) in
  fire_prob hot = (85 / 100)%R ∧
  trial_prob hot ((1, 1), (-1, 0))%Z = (17 / 10)%R.
Proof.
  cbv zeta.
  assert (fire_prob
            (_sync_params
               (with_sliders (state_of zero_grid false)
                  (mkSliders (slider0 default_sliders)
                     (set_val (slider1 default_sliders) 0)
                     (set_val (slider2 default_sliders) 1)
                     (set_val (slider3 default_sliders) 0)
                     (set_val (slider4 default_sliders) 50))))
          = (85 / 100)%R) as Hfp.
  { rewrite sync_params_fire_prob. cbn. unfold clamp, Rmax, Rmin.
    repeat destruct (Rle_dec _ _); lra. }
  split; [exact Hfp|].
  rewrite trial_prob_unfold, Hfp. cbn [snd fst].
  rewrite get_wind_bias_diff by (cbn; lra).
  unfold wind_diff. destruct bearing_values as (-> & _).
  cbn [_sync_params wind_dir wind_str moisture with_sliders sliders set_val val
       slider1 slider2 slider3].
  replace (0 - 0)%R with 0%R by lra. rewrite Rabs_R0.
  destruct (Rlt_dec 180 0); [lra|].
  replace (radians 0) with 0%R by (unfold radians; lra).
  rewrite cos_0. unfold Rmax. destruct (Rle_dec _ _); lra.
Qed.

(** The wind bias is never below its floor. *)
Lemma get_wind_bias_floor (wind_str wind_dir : R) (dy dx : Z) :
  (1 / 10 <= _get_wind_bias wind_str wind_dir dy dx)%R.
Proof.
  unfold _get_wind_bias. destruct (Req_dec_T wind_str 0); [lra|].
  apply Rmax_l.
Qed.

(** A run of the step: a burning cell with a tree to its east, initial
    parameters, and a generator whose first draw is 0.  The single trial
    succeeds; the tree burns, the fire burns out, and the simulation stays
    marked as running. *)
Example step_ignites_neighbour :
  let s := state_of (grid_set (grid_set zero_grid 5 5 BURNING) 5 6 TREE) true in
  let s' := (_simulate_step s 0%nat).1 in
  trials (grid s) = [((5, 5), (0, 1))]%Z ∧
  cell_at (grid s') 5 6 = Some BURNING ∧
  cell_at (grid s') 5 5 = Some BURNT ∧
  running s' = true.
Proof.
  cbv zeta.
  set (s := state_of (grid_set (grid_set zero_grid 5 5 BURNING) 5 6 TREE) true).
  assert (grid_shape (grid s)) as Hshape
    by (do 2 apply grid_set_shape; apply zero_grid_shape).
  assert (trials (grid s) = [((5, 5), (0, 1))]%Z) as Htrials
    by (vm_compute; reflexivity).
  assert (cell_at (grid (_simulate_step s 0%nat).1) 5 6 = Some BURNING) as Hfire.
  { rewrite simulate_step_cell by (done || lia).
    assert (cell_at (grid s) 5 6 = Some TREE) as -> by (vm_compute; reflexivity).
    rewrite Htrials. cbn [ignited].
    rewrite (bool_decide_eq_true_2 (target _ = _)) by reflexivity.
    rewrite bool_decide_eq_true_2; [done|].
    rewrite trial_prob_unfold.
    pose proof (get_wind_bias_floor (wind_str s) (wind_dir s) 0 1) as Hfloor.
    cbn [snd fst]. cbn [s state_of fire_prob moisture] in *.
    replace ((random 0%nat).1) with 0%R
      by (cbn [random counter_RandomState counter_random fst];
          change (0 mod 10)%nat with 0%nat; simpl; lra).
    nra. }
  split; [exact Htrials|]. split; [exact Hfire|]. split.
  - rewrite simulate_step_cell by (done || lia).
    by assert (cell_at (grid s) 5 5 = Some BURNING) as ->
      by (vm_compute; reflexivity).
  - rewrite simulate_step_running.
    assert (any_state (grid (_simulate_step s 0%nat).1) BURNING = true) as ->;
      [|done].
    apply any_state_true. by exists 5%Z, 6%Z.
Qed.

(** * Further properties of the program *)

(** ** Counting cells *)

Lemma count_row_successor (row row' : list CellState) :
  Forall2 cell_successor row row' →
  count_row EMPTY row' = count_row EMPTY row ∧
  (count_row TREE row' + count_row BURNING row')%nat = count_row TREE row ∧
  count_row BURNT row' = (count_row BURNT row + count_row BURNING row)%nat.
Proof.
  induction 1 as [|c c' row row' Hc _ (IH1 & IH2 & IH3)]; [done|].
  rewrite !count_row_cons.
  destruct c; cbn [cell_successor] in Hc;
    repeat match goal with H : _ ∨ _ |- _ => destruct H end; subst c';
    repeat case_decide; try done; lia.
Qed.

Lemma count_state_successor (g g' : Grid) :
  Forall2 (Forall2 cell_successor) g g' →
  count_state g' EMPTY = count_state g EMPTY ∧
  (count_state g' TREE + count_state g' BURNING)%nat = count_state g TREE ∧
  count_state g' BURNT = (count_state g BURNT + count_state g BURNING)%nat.
Proof.
  induction 1 as [|row row' g g' Hrow _ (IH1 & IH2 & IH3)]; [done|].
  rewrite !count_state_cons.
  destruct (count_row_successor _ _ Hrow) as (H1 & H2 & H3). lia.
Qed.

(** Two arrays of the shape of the grid whose cells are related pairwise. *)
Lemma grid_Forall2 (R : CellState → CellState → Prop) (g g' : Grid) :
  grid_shape g → grid_shape g' →
  (∀ (y x : nat) c c',
     cell_at g (Z.of_nat y) (Z.of_nat x) = Some c →
     cell_at g' (Z.of_nat y) (Z.of_nat x) = Some c' → R c c') →
  Forall2 (Forall2 R) g g'.
Proof.
  intros [Hlen Hrows] [Hlen' Hrows'] Hcells.
  rewrite Forall_forall in Hrows. rewrite Forall_forall in Hrows'.
  apply Forall2_same_length_lookup. split; [congruence|].
  intros y row row' Hrow Hrow'.
  apply Forall2_same_length_lookup. split.
  - rewrite (Hrows row), (Hrows' row') by (by eapply list_elem_of_lookup_2).
    done.
  - intros x c c' Hc Hc'. apply (Hcells y x); unfold cell_at;
      rewrite !Nat2Z.id; [by rewrite Hrow|by rewrite Hrow'].
Qed.

Lemma count_row_pos (c : CellState) (row : list CellState) :
  existsb (λ c', bool_decide (c' = c)) row = true ↔ (0 < count_row c row)%nat.
Proof.
  induction row as [|c' row IH]; [simpl; split; [done|unfold count_row; simpl; lia]|].
  rewrite count_row_cons. cbn [existsb]. rewrite orb_true_iff, IH.
  rewrite bool_decide_eq_true. case_decide; split; try lia; auto.
  intros [?|?]; [done|lia].
Qed.

Lemma count_state_pos (g : Grid) (c : CellState) :
  any_state g c = true ↔ (0 < count_state g c)%nat.
Proof.
  unfold any_state. induction g as [|row g IH]; [simpl; split; [done|unfold count_state; simpl; lia]|].
  rewrite count_state_cons. cbn [existsb].
  rewrite orb_true_iff, IH, count_row_pos. lia.
Qed.

(** ** Steps and the cells they change *)

Section MoreSteps.
Context {G : Type} `{RS : RandomState G}.
Implicit Types (s : ForestFireSimulation) (g : G).

Lemma simulate_step_successor s g :
  grid_shape (grid s) →
  Forall2 (Forall2 cell_successor) (grid s) (grid (_simulate_step s g).1).
Proof.
  intros Hshape. apply grid_Forall2; [done|by apply simulate_step_shape|].
  intros y x c c' Hc Hc'.
  rewrite simulate_step_cell, Hc in Hc' by (done || lia).
  destruct c; inversion Hc'; subst; cbn [cell_successor]; try done.
  destruct (ignited _ _ _ _); auto.
Qed.

Lemma simulate_step_quiescent s g :
  any_state (grid s) BURNING = false →
  _simulate_step s g = (with_running s false, g).
Proof.
  intros Hnone. unfold _simulate_step.
  rewrite (argwhere_nil (grid s) BURNING) by (by apply any_state_false).
  cbn [foldl]. cbn [with_grid grid]. rewrite Hnone. by destruct s.
Qed.

Lemma run_steps_quiescent n s g :
  any_state (grid s) BURNING = false →
  grid (run_steps n s g).1 = grid s ∧ (run_steps n s g).2 = g ∧
  (0 < n → running (run_steps n s g).1 = false)%nat.
Proof.
  revert s. induction n as [|n IH]; intros s Hnone; [by repeat split; try lia|].
  cbn [run_steps]. rewrite simulate_step_quiescent by done.
  destruct (IH (with_running s false) Hnone) as (IHg & IHgen & IHrun).
  repeat split; [done..|]. intros _. destruct n as [|n]; [done|].
  apply IHrun. lia.
Qed.

Lemma run_steps_shape n s g :
  grid_shape (grid s) → grid_shape (grid (run_steps n s g).1).
Proof.
  revert s g. induction n as [|n IH]; intros s g Hshape; [done|].
  cbn [run_steps]. pose proof (simulate_step_shape s g Hshape) as Hs.
  destruct (_simulate_step s g) as [s' g']. by apply IH.
Qed.

(** A cell burns after a step only if it was a tree next to a burning
    cell. *)
Lemma simulate_step_burning_origin s g y x :
  grid_shape (grid s) → (0 ≤ y)%Z → (0 ≤ x)%Z →
  cell_at (grid (_simulate_step s g).1) y x = Some BURNING →
  cell_at (grid s) y x = Some TREE ∧
  ∃ y0 x0 : Z,
    in_grid y0 x0 = true ∧ cell_at (grid s) y0 x0 = Some BURNING ∧
    (Z.abs (y - y0) ≤ 1)%Z ∧ (Z.abs (x - x0) ≤ 1)%Z.
Proof.
  intros Hshape Hy Hx Hc. rewrite simulate_step_cell in Hc by done.
  destruct (cell_at (grid s) y x) as [[]|] eqn:Hold; try done.
  destruct (ignited s g (trials (grid s)) (y, x)) eqn:Hig; [|done].
  split; [done|].
  apply ignited_spec in Hig as (i & [[by_ bx] [dy dx]] & Hi & Ht & _).
  apply list_elem_of_lookup_2, elem_of_trials in Hi. cbn [fst snd] in Hi.
  destruct Hi as (Hby & Hbx & Hb & Hd%elem_of_OFFSETS & _ & _).
  unfold target in Ht. cbn [fst snd] in Ht. inversion Ht; subst y x.
  exists by_, bx. split; [|split; [done|lia]].
  apply (cell_at_in_grid (grid s)); [done..|]. by rewrite Hb.
Qed.

End MoreSteps.

(** X1.  A step on a grid without a burning cell does nothing but clear the
    running flag: the grid, the other attributes and the generator are
    unchanged, whatever trees the grid holds. *)
Theorem step_without_fire_is_idle {G : Type} `{RS : RandomState G}
  (s : ForestFireSimulation) (g : G) :
  any_state (grid s) BURNING = false →
  _simulate_step s g = (with_running s false, g).
Proof. apply simulate_step_quiescent. Qed.

Lemma step_without_fire_is_idle_witness :
  let s := state_of (grid_set zero_grid 2 3 TREE) true in
  _simulate_step s 7%nat = (with_running s false, 7%nat).
Proof.
  apply step_without_fire_is_idle. vm_compute. reflexivity.
Defined.

(** X2.  A step conserves the cells: the number of [EMPTY] cells stays the
    same, the trees either stay or burn, and the burnt cells are the former
    burnt and burning cells. *)
Theorem step_conserves_counts {G : Type} `{RS : RandomState G}
  (s : ForestFireSimulation) (g : G) :
  grid_shape (grid s) →
  let old := grid s in
  let new := grid (_simulate_step s g).1 in
  count_state new EMPTY = count_state old EMPTY ∧
  (count_state new TREE + count_state new BURNING)%nat = count_state old TREE ∧
  count_state new BURNT = (count_state old BURNT + count_state old BURNING)%nat.
Proof.
  intros Hshape. cbv zeta.
  by apply count_state_successor, simulate_step_successor.
Qed.

Lemma step_conserves_counts_witness :
  let s := state_of (grid_set (grid_set zero_grid 5 5 BURNING) 5 6 TREE) true in
  count_state (grid (_simulate_step s 0%nat).1) BURNT = 1%nat.
Proof.
  cbv zeta.
  pose proof (step_conserves_counts
    (state_of (grid_set (grid_set zero_grid 5 5 BURNING) 5 6 TREE) true)
    0%nat) as Hcounts.
  cbv zeta in Hcounts. destruct Hcounts as (_ & _ & ->).
  - do 2 apply grid_set_shape. apply zero_grid_shape.
  - vm_compute. reflexivity.
Defined.

(** X3.  A fire always dies out: every step with a burning cell left either
    extinguishes the fire or consumes a tree, so after more steps than there
    are trees no cell burns and the running flag is off, whatever the
    generator returns. *)
Theorem fire_dies_out {G : Type} `{RS : RandomState G}
  (n : nat) (s : ForestFireSimulation) (g : G) :
  grid_shape (grid s) → (count_state (grid s) TREE < n)%nat →
  any_state (grid (run_steps n s g).1) BURNING = false ∧
  running (run_steps n s g).1 = false.
Proof.
  revert s g. induction n as [|n IH]; intros s g Hshape Hlt; [lia|].
  cbn [run_steps].
  pose proof (simulate_step_successor s g Hshape) as Hsucc.
  apply count_state_successor in Hsucc as (_ & Hsum & _).
  pose proof (simulate_step_shape s g Hshape) as Hshape'.
  pose proof (simulate_step_running s g) as Hrun.
  destruct (_simulate_step s g) as [s' g']. cbn [fst] in *.
  destruct (any_state (grid s') BURNING) eqn:Hany.
  - apply count_state_pos in Hany. apply IH; [done|lia].
  - destruct (run_steps_quiescent n s' g' Hany) as (Hg & _ & Hr).
    rewrite Hg. split; [done|]. destruct n as [|n]; [done|]. apply Hr. lia.
Qed.

Lemma fire_dies_out_witness :
  let s := state_of (grid_set (grid_set zero_grid 5 5 BURNING) 5 6 TREE) true in
  any_state (grid (run_steps 2 s 0%nat).1) BURNING = false ∧
  running (run_steps 2 s 0%nat).1 = false.
Proof.
  apply fire_dies_out.
  - do 2 apply grid_set_shape. apply zero_grid_shape.
  - vm_compute. lia.
Defined.

(** X4.  Fire advances by at most one cell per step: a cell that burns
    after [n] steps lies within [n] rows and [n] columns of a cell that
    burnt at the start. *)
Theorem fire_speed_limit {G : Type} `{RS : RandomState G}
  (n : nat) (s : ForestFireSimulation) (g : G) (y x : Z) :
  grid_shape (grid s) → (0 ≤ y)%Z → (0 ≤ x)%Z →
  cell_at (grid (run_steps n s g).1) y x = Some BURNING →
  ∃ y0 x0 : Z,
    in_grid y0 x0 = true ∧ cell_at (grid s) y0 x0 = Some BURNING ∧
    (Z.abs (y - y0) ≤ Z.of_nat n)%Z ∧ (Z.abs (x - x0) ≤ Z.of_nat n)%Z.
Proof.
  revert s g y x. induction n as [|n IH]; intros s g y x Hshape Hy Hx Hc.
  - exists y, x. cbn [run_steps fst] in Hc. split; [|split; [done|lia]].
    apply (cell_at_in_grid (grid s)); [done..|]. by rewrite Hc.
  - cbn [run_steps] in Hc.
    pose proof (simulate_step_shape s g Hshape) as Hshape'.
    pose proof (simulate_step_burning_origin s g) as Horigin.
    destruct (_simulate_step s g) as [s' g']. cbn [fst] in *.
    destruct (IH s' g' y x Hshape' Hy Hx Hc) as (y1 & x1 & Hin1 & Hc1 & ? & ?).
    destruct (in_grid_nonneg _ _ Hin1) as [? ?].
    destruct (Horigin y1 x1 Hshape) as (_ & y0 & x0 & Hin0 & Hc0 & ? & ?);
      [done..|].
    exists y0, x0. repeat split; [done..|lia|lia].
Qed.

Lemma fire_speed_limit_witness :
  let s := state_of (grid_set (grid_set zero_grid 5 5 BURNING) 5 6 TREE) true in
  ∃ y0 x0 : Z,
    in_grid y0 x0 = true ∧ cell_at (grid s) y0 x0 = Some BURNING ∧
    (Z.abs (5 - y0) ≤ 1)%Z ∧ (Z.abs (6 - x0) ≤ 1)%Z.
Proof.
  cbv zeta.
  apply (fire_speed_limit 1
    (state_of (grid_set (grid_set zero_grid 5 5 BURNING) 5 6 TREE) true)
    0%nat 5 6).
  - do 2 apply grid_set_shape. apply zero_grid_shape.
  - lia.
  - lia.
  - cbn [run_steps].
    destruct step_ignites_neighbour as (_ & Hfire & _). cbv zeta in Hfire.
    by destruct (_simulate_step _ 0%nat).
Defined.

(** ** Bounds of the wind bias *)

Section WindBounds.
Local Open Scope R_scope.

Lemma bearing_opposite (dy dx : Z) :
  (dy, dx) ∈ OFFSETS →
  bearing (- dy) (- dx) = bearing dy dx + 180 ∨
  bearing (- dy) (- dx) = bearing dy dx - 180.
Proof.
  destruct bearing_values as (H1 & H2 & H3 & H4 & H5 & H6 & H7 & H8).
  unfold OFFSETS. rewrite !elem_of_cons, elem_of_nil. intros H.
  repeat (destruct H as [[= -> ->]|H]); [..|done];
    change (- (-1))%Z with 1%Z; change (- (1))%Z with (-1)%Z;
    change (- 0)%Z with 0%Z;
    rewrite ?H1, ?H2, ?H3, ?H4, ?H5, ?H6, ?H7, ?H8; lra.
Qed.

Lemma opposite_OFFSETS (dy dx : Z) :
  (dy, dx) ∈ OFFSETS → ((- dy)%Z, (- dx)%Z) ∈ OFFSETS.
Proof. rewrite !elem_of_OFFSETS. lia. Qed.

Lemma radians_180 : radians 180 = PI.
Proof. unfold radians. lra. Qed.

Lemma radians_0 : radians 0 = 0.
Proof. unfold radians. lra. Qed.

End WindBounds.

Lemma get_wind_bias_range (wind_str wind_dir : R) (dy dx : Z) :
  (0 <= wind_str)%R →
  (Rmax (1 / 10) (1 - wind_str)
   <= _get_wind_bias wind_str wind_dir dy dx <= 1 + wind_str)%R.
Proof.
  intros Hws. unfold _get_wind_bias.
  destruct (Req_dec_T wind_str 0) as [->|Hne].
  - unfold Rmax. destruct (Rle_dec _ _); lra.
  - match goal with |- context [cos ?a] => pose proof (COS_bound a) as [? ?] end.
    unfold Rmax. repeat destruct (Rle_dec _ _); nra.
Qed.

(** X5.  Whatever the offset and the wind direction, with a wind strength
    that is not negative the bias lies between [max(0.1, 1 - wind_str)] and
    [1 + wind_str]; in particular it is at least 0.1 and, for strengths up
    to 1, at most 2. *)
Theorem wind_bias_bounds (wind_str wind_dir : R) (dy dx : Z) :
  (0 <= wind_str)%R →
  (Rmax (1 / 10) (1 - wind_str)
   <= _get_wind_bias wind_str wind_dir dy dx <= 1 + wind_str)%R.
Proof. apply get_wind_bias_range. Qed.

Lemma wind_bias_bounds_witness :
  (Rmax (1 / 10) (1 - 5 / 10) <= _get_wind_bias (5 / 10) 300 1 (-1)
   <= 1 + 5 / 10)%R.
Proof. apply wind_bias_bounds. lra. Defined.

(** X6.  When the wind blows exactly towards a neighbour, that neighbour
    gets the largest bias, [1 + wind_str], and the opposite neighbour the
    smallest, [max(0.1, 1 - wind_str)], which is strictly less as soon as
    there is wind. *)
Theorem downwind_beats_upwind (wind_str wind_dir : R) (dy dx : Z) :
  (dy, dx) ∈ OFFSETS → (0 < wind_str)%R → (0 <= wind_dir < 360)%R →
  (wind_dir = bearing dy dx ∨ wind_dir = bearing dy dx + 360)%R →
  _get_wind_bias wind_str wind_dir dy dx = (1 + wind_str)%R ∧
  _get_wind_bias wind_str wind_dir (- dy) (- dx)
    = Rmax (1 / 10) (1 - wind_str) ∧
  (_get_wind_bias wind_str wind_dir (- dy) (- dx)
   < _get_wind_bias wind_str wind_dir dy dx)%R.
Proof.
  intros Hoff Hws Hwd Hdir.
  pose proof (bearing_range _ _ (opposite_OFFSETS _ _ Hoff)) as Hopp.
  pose proof (bearing_opposite _ _ Hoff) as Hrel.
  assert (_get_wind_bias wind_str wind_dir dy dx = (1 + wind_str)%R) as Hdown.
  { rewrite get_wind_bias_diff by lra. unfold wind_diff.
    assert ((if Rlt_dec 180 (Rabs (bearing dy dx - wind_dir))
             then 360 - Rabs (bearing dy dx - wind_dir)
             else Rabs (bearing dy dx - wind_dir))%R = 0%R) as ->.
    { destruct Hdir as [-> | ->].
      - replace (bearing dy dx - bearing dy dx)%R with 0%R by lra.
        rewrite Rabs_R0. destruct (Rlt_dec _ _); lra.
      - replace (bearing dy dx - (bearing dy dx + 360))%R with (- (360))%R
          by lra.
        rewrite Rabs_Ropp, Rabs_pos_eq by lra. destruct (Rlt_dec _ _); lra. }
    rewrite radians_0, cos_0. unfold Rmax. destruct (Rle_dec _ _); lra. }
  assert (_get_wind_bias wind_str wind_dir (- dy) (- dx)
          = Rmax (1 / 10) (1 - wind_str)) as Hup.
  { rewrite get_wind_bias_diff by lra. unfold wind_diff.
    assert ((if Rlt_dec 180 (Rabs (bearing (- dy) (- dx) - wind_dir))
             then 360 - Rabs (bearing (- dy) (- dx) - wind_dir)
             else Rabs (bearing (- dy) (- dx) - wind_dir))%R = 180%R) as ->.
    { assert (bearing (- dy) (- dx) - wind_dir = 180 ∨
              bearing (- dy) (- dx) - wind_dir = -180)%R as [-> | ->]
        by (destruct Hdir, Hrel; lra).
      - rewrite Rabs_pos_eq by lra. destruct (Rlt_dec _ _); lra.
      - replace (IZR (-180)) with (- (180))%R by lra.
        rewrite Rabs_Ropp, Rabs_pos_eq by lra. destruct (Rlt_dec _ _); lra. }
    rewrite radians_180, cos_PI. f_equal. lra. }
  split; [done|]. split; [done|].
  rewrite Hdown, Hup. unfold Rmax. destruct (Rle_dec _ _); lra.
Qed.

Lemma downwind_beats_upwind_witness :
  (_get_wind_bias (5 / 10) 90 0 (-1) < _get_wind_bias (5 / 10) 90 0 1)%R.
Proof.
  assert ((0, 1)%Z ∈ OFFSETS) as Hoff by (apply elem_of_OFFSETS; lia).
  destruct (downwind_beats_upwind (5 / 10) 90 0 1 Hoff) as (_ & _ & Hlt).
  - lra.
  - lra.
  - left. destruct bearing_values as (_ & _ & _ & -> & _). reflexivity.
  - exact Hlt.
Defined.

(** ** Invariants of the reachable states *)

Section ReachableStates.
Context {G : Type} `{RS : RandomState G}.
Implicit Types (s : ForestFireSimulation) (g : G).

(** [params_ok] only looks at the sliders, the parameters and the fire
    probability. *)
Lemma params_ok_ext s s' :
  sliders s' = sliders s → tree_density s' = tree_density s →
  wind_dir s' = wind_dir s → wind_str s' = wind_str s →
  moisture s' = moisture s → temperature s' = temperature s →
  fire_prob s' = fire_prob s → params_ok s → params_ok s'.
Proof.
  unfold params_ok. intros -> -> -> -> -> -> ->. done.
Qed.

Lemma sync_params_ok s :
  slider_ok (slider0 (sliders s)) (1 / 10) (9 / 10) →
  slider_ok (slider1 (sliders s)) 0 360 →
  slider_ok (slider2 (sliders s)) 0 1 →
  slider_ok (slider3 (sliders s)) 0 (5 / 10) →
  slider_ok (slider4 (sliders s)) 0 50 →
  params_ok (_sync_params s).
Proof.
  intros H0 H1 H2 H3 H4. split; [done|]. split.
  - cbn [_sync_params tree_density wind_dir wind_str moisture temperature].
    destruct H0 as (_ & _ & ?), H1 as (_ & _ & ?), H2 as (_ & _ & ?),
      H3 as (_ & _ & ?), H4 as (_ & _ & ?). done.
  - rewrite sync_params_fire_prob. apply clamp_bounds. lra.
Qed.

Lemma init_forest_fields s g :
  let s' := (_init_forest s g).1 in
  running s' = running s ∧ paused s' = paused s ∧ sliders s' = sliders s ∧
  tree_density s' = tree_density s ∧ wind_dir s' = wind_dir s ∧
  wind_str s' = wind_str s ∧ moisture s' = moisture s ∧
  temperature s' = temperature s ∧ fire_prob s' = fire_prob s.
Proof. unfold _init_forest. by destruct (choice_grid _ _ _ _). Qed.

Lemma reset_forest_params_ok s g : params_ok s → params_ok (_reset_forest s g).1.
Proof.
  intros (Hsl & Hpar & Hfp). unfold _reset_forest.
  pose proof (init_forest_fields
                (with_tree_density s (val (slider0 (sliders s)))) g) as Hf.
  cbv zeta in Hf. destruct (_init_forest _ g) as [s2 g']. cbn [fst] in *.
  destruct Hf as (_ & _ & Hs & Hd & Hwd & Hws & Hm & Ht & Hp).
  unfold params_ok.
  cbn [with_paused with_running sliders tree_density wind_dir wind_str
       moisture temperature fire_prob].
  rewrite Hs, Hd, Hwd, Hws, Hm, Ht, Hp.
  cbn [with_tree_density sliders tree_density wind_dir wind_str moisture
       temperature fire_prob].
  split; [done|]. split; [|done].
  destruct Hsl as ((_ & _ & ?) & _). destruct Hpar as (_ & ? & ? & ? & ?).
  done.
Qed.

Lemma randomized_params_ok s g : params_ok s → params_ok (randomized s g).
Proof.
  intros (((Ha0 & Hb0 & _) & (Ha1 & Hb1 & _) & (Ha2 & Hb2 & _)
           & (Ha3 & Hb3 & _) & (Ha4 & Hb4 & _)) & _ & _).
  pose proof (draw_at_range g 0). pose proof (draw_at_range g 1).
  pose proof (draw_at_range g 2). pose proof (draw_at_range g 3).
  pose proof (draw_at_range g 4).
  unfold randomized. apply sync_params_ok;
    cbn [with_sliders sliders slider0 slider1 slider2 slider3 slider4];
    unfold slider_ok, set_val; cbn [min_v max_v val];
    (split; [done|split; [done|lra]]).
Qed.

Lemma update_val_ok (sl : Slider) (lo hi v : R) :
  (lo <= hi)%R → slider_ok sl lo hi → slider_ok (update_val sl v) lo hi.
Proof.
  intros Hle (Hlo & Hhi & _). unfold slider_ok, update_val, set_val.
  cbn [min_v max_v val]. rewrite Hlo, Hhi. repeat split; try done.
  all: by apply clamp_bounds.
Qed.

Lemma move_slider_params_ok s i v : params_ok s → params_ok (move_slider s i v).
Proof.
  intros ((H0 & H1 & H2 & H3 & H4) & Hpar & Hfp).
  unfold move_slider, params_ok.
  destruct i as [|[|[|[|[|i]]]]];
    cbn [with_sliders sliders slider0 slider1 slider2 slider3 slider4
         tree_density wind_dir wind_str moisture temperature fire_prob];
    (split; [|done]); (split; [|split; [|split; [|split]]]); try done;
    apply update_val_ok; (done || lra).
Qed.

Lemma start_fire_fields s g s' g' :
  _start_fire s g = Some (s', g') →
  paused s' = paused s ∧ sliders s' = sliders s ∧
  tree_density s' = tree_density s ∧ wind_dir s' = wind_dir s ∧
  wind_str s' = wind_str s ∧ moisture s' = moisture s ∧
  temperature s' = temperature s ∧ fire_prob s' = fire_prob s.
Proof.
  unfold _start_fire. case_decide.
  - destruct (choice_distinct _ _ g) as [idx g1].
    destruct (mapM _ idx) as [picked|]; [|done]. cbn [mbind option_bind].
    by intros [= <- <-].
  - by intros [= <- <-].
Qed.

Lemma reachable_params_ok s : reachable s → params_ok s.
Proof.
  induction 1 as [g| s g s' g' _ IH Hstart | s g _ IH | s _ IH | s g _ IH
                 | s g _ IH | s _ IH | s gy gx _ IH | s i v _ IH].
  - unfold __init__.
    match goal with |- params_ok (_init_forest ?s0 g).1 =>
      pose proof (init_forest_fields s0 g) as Hf;
      assert (params_ok s0) as H0
    end.
    { unfold params_ok, slider_ok, default_sliders.
      cbn [sliders slider0 slider1 slider2 slider3 slider4 min_v max_v val
           tree_density wind_dir wind_str moisture temperature fire_prob].
      repeat split; (done || lra). }
    cbv zeta in Hf. destruct Hf as (_ & _ & ? & ? & ? & ? & ? & ? & ?).
    by eapply params_ok_ext.
  - destruct (start_fire_fields _ _ _ _ Hstart)
      as (_ & ? & ? & ? & ? & ? & ? & ?).
    by eapply params_ok_ext.
  - by apply reset_forest_params_ok.
  - done.
  - destruct (simulate_step_frame s g) as (_ & ? & ? & ? & ? & ? & ? & ?).
    by eapply params_ok_ext.
  - rewrite randomize_unfold.
    by apply reset_forest_params_ok, randomized_params_ok.
  - destruct IH as ((? & ? & ? & ? & ?) & _). by apply sync_params_ok.
  - unfold ignite_at. by destruct (in_grid gy gx && _).
  - by apply move_slider_params_ok.
Qed.

(** What [_start_fire] returns. *)
Lemma start_fire_result s g s' g' :
  _start_fire s g = Some (s', g') →
  (s' = s ∧ g' = g) ∨
  (∃ picked : list (Z * Z),
     picked ≠ [] ∧ cells_of (grid s) picked ∧
     s' = with_running
            (with_grid s
               (foldl (λ (gr : Grid) '(y, x), grid_set gr y x BURNING)
                      (grid s) picked)) true).
Proof.
  unfold _start_fire. case_decide as Hlen; [|intros [= <- <-]; by left].
  assert (Nat.min 3 (length (argwhere (grid s) TREE))
          ≤ length (argwhere (grid s) TREE)) as Hk by lia.
  pose proof (choice_distinct_length _ _ g Hk) as Hl.
  destruct (choice_distinct _ _ g) as [idx g1]. cbn [fst] in Hl.
  destruct (mapM _ idx) as [picked|] eqn:Hpicked; [|done].
  cbn [mbind option_bind]. intros [= <- <-]. right.
  apply mapM_Some in Hpicked. exists picked. split; [|split; [|done]].
  - apply Forall2_length in Hpicked. intros ->. simpl in Hpicked. lia.
  - apply Forall_forall. intros [y x] Hin.
    destruct (picked_elem_of _ _ _ Hpicked _ Hin) as (i & _ & Hi).
    apply list_elem_of_lookup_2, elem_of_argwhere in Hi as (? & ? & Hc).
    cbn [fst snd]. by rewrite Hc.
Qed.

(** While the simulation is marked as running, a cell burns. *)
Lemma reachable_running_fire s :
  reachable s → running s = true → any_state (grid s) BURNING = true.
Proof.
  induction 1 as [g| s g s' g' _ IH Hstart | s g _ IH | s _ IH | s g _ IH
                 | s g _ IH | s _ IH | s gy gx _ IH | s i v _ IH].
  - unfold __init__.
    match goal with |- running (_init_forest ?s0 g).1 = _ → _ =>
      destruct (init_forest_fields s0 g) as (-> & _) end.
    done.
  - destruct (start_fire_result _ _ _ _ Hstart)
      as [[-> _] | (picked & Hne & Hcells & ->)]; [done|].
    intros _. destruct picked as [|[y x] picked]; [done|].
    pose proof Hcells as Hc. apply Forall_cons in Hc as [(Hy & Hx & _) _].
    cbn [fst snd] in *. apply any_state_true. exists y, x.
    repeat split; [done..|]. cbn [with_running with_grid grid].
    rewrite cell_at_foldl_set by done. rewrite decide_True; [done|left].
  - by destruct (reset_forest_flags s g) as [-> _].
  - done.
  - rewrite simulate_step_running.
    by destruct (any_state (grid (_simulate_step s g).1) BURNING).
  - rewrite randomize_unfold.
    by destruct (reset_forest_flags (randomized s g) (advance 5 g)) as [-> _].
  - done.
  - unfold ignite_at.
    destruct (in_grid gy gx) eqn:Hin; cbn [andb]; [|done].
    case_bool_decide as Htree; [|done]. intros _.
    apply in_grid_nonneg in Hin as [? ?].
    apply any_state_true. exists gy, gx. repeat split; [done..|].
    cbn [with_running with_grid grid].
    apply cell_at_grid_set_eq. by rewrite Htree.
  - by destruct i as [|[|[|[|[|]]]]].
Qed.

End ReachableStates.

(** X7.  In every state the program can reach, the sliders keep their
    bounds, the slider values, the five parameters and the fire probability
    lie in their ranges, and the threshold of every ignition trial lies
    between 0.0025 and 1.9: an ignition is never impossible and no
    threshold is negative. *)
Theorem reachable_parameters_valid {G : Type} `{RS : RandomState G}
  (s : ForestFireSimulation) :
  reachable s →
  params_ok s ∧
  ∀ dy dx : Z,
    (1 / 400
     <= fire_prob s * _get_wind_bias (wind_str s) (wind_dir s) dy dx
        * (1 - moisture s)
     <= 19 / 10)%R.
Proof.
  intros Hok%reachable_params_ok. split; [done|]. intros dy dx.
  destruct Hok as (_ & (_ & _ & Hws & Hm & _) & Hfp).
  pose proof (get_wind_bias_range (wind_str s) (wind_dir s) dy dx
                ltac:(lra)) as [Hlo Hhi].
  pose proof (Rmax_l (1 / 10) (1 - wind_str s)) as Hfloor.
  set (b := _get_wind_bias (wind_str s) (wind_dir s) dy dx) in *.
  assert (5 / 1000 <= fire_prob s * b <= 19 / 10)%R as [? ?] by nra.
  nra.
Qed.

Lemma reachable_parameters_valid_witness :
  params_ok (__init__ 0%nat).1.
Proof.
  apply (reachable_parameters_valid (__init__ 0%nat).1). apply reach_init.
Defined.

(** X8.  In every state the program can reach, the grid has its full shape
    and the running flag is on exactly when some cell is burning. *)
Theorem running_iff_fire {G : Type} `{RS : RandomState G}
  (s : ForestFireSimulation) :
  reachable s →
  grid_shape (grid s) ∧ running s = any_state (grid s) BURNING.
Proof.
  intros Hreach. destruct (reachable_inv s Hreach) as [Hshape Hfire].
  split; [done|].
  pose proof (reachable_running_fire s Hreach) as Hrun.
  destruct (running s), (any_state (grid s) BURNING); auto.
  by rewrite Hrun.
Qed.

Lemma running_iff_fire_witness :
  running (__init__ 0%nat).1 = any_state (grid (__init__ 0%nat).1) BURNING.
Proof.
  apply (running_iff_fire (__init__ 0%nat).1). apply reach_init.
Defined.

(** ** Clamping and the sliders *)

Lemma clamp_below (v lo hi : R) :
  (lo <= hi)%R → (v <= lo)%R → clamp v lo hi = lo.
Proof.
  intros ? ?. unfold clamp, Rmax, Rmin. repeat (destruct (Rle_dec _ _)); lra.
Qed.

Lemma clamp_above (v lo hi : R) :
  (lo <= hi)%R → (hi <= v)%R → clamp v lo hi = hi.
Proof.
  intros ? ?. unfold clamp, Rmax, Rmin. repeat (destruct (Rle_dec _ _)); lra.
Qed.

Lemma clamp_inside (v lo hi : R) : (lo <= v <= hi)%R → clamp v lo hi = v.
Proof.
  intros ?. unfold clamp, Rmax, Rmin. repeat (destruct (Rle_dec _ _)); lra.
Qed.

(** X9.  [clamp] with a proper interval returns a value of the interval: the
    argument itself when it lies inside, the nearer bound otherwise, so that
    clamping twice is clamping once.  With the bounds in the wrong order it
    returns the lower bound [lo], whatever the argument. *)
Theorem clamp_behaviour (v lo hi : R) :
  ((lo <= hi)%R →
     (lo <= clamp v lo hi <= hi)%R ∧
     ((lo <= v <= hi)%R → clamp v lo hi = v) ∧
     ((v <= lo)%R → clamp v lo hi = lo) ∧
     ((hi <= v)%R → clamp v lo hi = hi) ∧
     clamp (clamp v lo hi) lo hi = clamp v lo hi) ∧
  ((hi < lo)%R → clamp v lo hi = lo).
Proof.
  unfold clamp, Rmax, Rmin. split.
  - intros Hle. repeat split; try intros ?;
      repeat (destruct (Rle_dec _ _)); lra.
  - intros Hlt. repeat (destruct (Rle_dec _ _)); lra.
Qed.

Lemma clamp_behaviour_witness :
  (0 <= clamp 7 0 1 <= 1)%R ∧ clamp 7 1 0 = 1%R.
Proof.
  destruct (clamp_behaviour 7 0 1) as [Hproper _].
  destruct (clamp_behaviour 7 1 0) as [_ Hinverted].
  split; [apply Hproper; lra|apply Hinverted; lra].
Defined.

Section SliderWidgets.
Local Open Scope R_scope.

Lemma widget_update_val_val (w : SliderWidget) (mx : Z) :
  val (w_slider (widget_update_val w mx)) =
    clamp (min_v (w_slider w)
           + IZR (mx - rect_x (w_rect w)) / IZR (rect_width (w_rect w))
             * (max_v (w_slider w) - min_v (w_slider w)))
          (min_v (w_slider w)) (max_v (w_slider w)).
Proof. done. Qed.

Lemma widget_update_val_fields (w : SliderWidget) (mx : Z) :
  min_v (w_slider (widget_update_val w mx)) = min_v (w_slider w) ∧
  max_v (w_slider (widget_update_val w mx)) = max_v (w_slider w) ∧
  w_rect (widget_update_val w mx) = w_rect w ∧
  w_dragging (widget_update_val w mx) = w_dragging w.
Proof. done. Qed.

(** The position along the track, as a fraction of its width. *)
Lemma track_fraction_monotone (x width mx1 mx2 : Z) :
  (0 < width)%Z → (mx1 ≤ mx2)%Z →
  IZR (mx1 - x) / IZR width <= IZR (mx2 - x) / IZR width.
Proof.
  intros Hw Hle. apply IZR_lt in Hw.
  assert (IZR (mx1 - x) <= IZR (mx2 - x)) by (apply IZR_le; lia).
  apply Rmult_le_compat_r; [|done].
  apply Rlt_le, Rinv_0_lt_compat. done.
Qed.

Lemma slider_handle_event_range (w : SliderWidget) (e : Event) :
  let lo := min_v (w_slider w) in
  let hi := max_v (w_slider w) in
  let w' := (slider_handle_event w e).1 in
  lo <= hi → lo <= val (w_slider w) <= hi →
  min_v (w_slider w') = lo ∧ max_v (w_slider w') = hi ∧
  w_rect w' = w_rect w ∧ lo <= val (w_slider w') <= hi.
Proof.
  cbv zeta. intros Hle Hval. destruct e as [| |pos b|pos b|pos|];
    cbn [slider_handle_event]; try done.
  - destruct (collidepoint _ pos); cbn [fst]; [|done].
    repeat split; try done; rewrite widget_update_val_val; by apply clamp_bounds.
  - destruct (w_dragging w); cbn [fst]; [|done].
    repeat split; try done; rewrite widget_update_val_val; by apply clamp_bounds.
Qed.

End SliderWidgets.

(** X10.  [Slider.update_val] maps the pointer position linearly onto the
    slider's range and clamps it: the value always lies between the
    slider's bounds, it is the lower bound at or left of the track's start,
    the upper bound at or right of its end, and it never decreases when the
    pointer moves to the right.  The bounds, the rectangle and the dragging
    flag are left alone. *)
Theorem slider_pixel_mapping (w : SliderWidget) (mx : Z) :
  let sl := w_slider w in
  let x := rect_x (w_rect w) in
  let width := rect_width (w_rect w) in
  let value := λ m : Z, val (w_slider (widget_update_val w m)) in
  (0 < width)%Z → (min_v sl <= max_v sl)%R →
  (min_v sl <= value mx <= max_v sl)%R ∧
  ((mx ≤ x)%Z → value mx = min_v sl) ∧
  ((x + width ≤ mx)%Z → value mx = max_v sl) ∧
  ((x ≤ mx ≤ x + width)%Z →
     value mx
     = (min_v sl + IZR (mx - x) / IZR width * (max_v sl - min_v sl))%R) ∧
  (∀ mx' : Z, (mx ≤ mx')%Z → (value mx <= value mx')%R) ∧
  min_v (w_slider (widget_update_val w mx)) = min_v sl ∧
  max_v (w_slider (widget_update_val w mx)) = max_v sl ∧
  w_rect (widget_update_val w mx) = w_rect w ∧
  w_dragging (widget_update_val w mx) = w_dragging w.
Proof.
  cbv zeta. intros Hw Hle.
  pose proof (IZR_lt _ _ Hw) as Hw'.
  pose proof (Rinv_0_lt_compat _ Hw') as Hinv.
  split; [rewrite widget_update_val_val; by apply clamp_bounds|].
  split; [|split; [|split; [|split; [|done]]]].
  - intros Hleft. rewrite widget_update_val_val.
    apply clamp_below; [done|].
    assert (IZR (mx - rect_x (w_rect w)) <= 0)%R by (apply IZR_le; lia).
    assert (IZR (mx - rect_x (w_rect w)) / IZR (rect_width (w_rect w)) <= 0)%R
      by (unfold Rdiv; nra).
    nra.
  - intros Hright. rewrite widget_update_val_val.
    apply clamp_above; [done|].
    assert (IZR (rect_width (w_rect w)) <= IZR (mx - rect_x (w_rect w)))%R
      by (apply IZR_le; lia).
    assert (1 <= IZR (mx - rect_x (w_rect w)) / IZR (rect_width (w_rect w)))%R.
    { apply (Rmult_le_reg_r (IZR (rect_width (w_rect w)))); [done|].
      unfold Rdiv. rewrite Rmult_assoc, Rinv_l by lra. lra. }
    nra.
  - intros [Hlo Hhi]. rewrite widget_update_val_val.
    apply clamp_inside.
    assert (0 <= IZR (mx - rect_x (w_rect w)))%R by (apply IZR_le; lia).
    assert (IZR (mx - rect_x (w_rect w)) <= IZR (rect_width (w_rect w)))%R
      by (apply IZR_le; lia).
    assert (IZR (mx - rect_x (w_rect w)) / IZR (rect_width (w_rect w)) <= 1)%R.
    { apply (Rmult_le_reg_r (IZR (rect_width (w_rect w)))); [done|].
      unfold Rdiv. rewrite Rmult_assoc, Rinv_l by lra. lra. }
    assert (0 <= IZR (mx - rect_x (w_rect w)) / IZR (rect_width (w_rect w)))%R
      by (unfold Rdiv; nra).
    nra.
  - intros mx' Hmx. rewrite !widget_update_val_val. apply clamp_monotone.
    pose proof (track_fraction_monotone (rect_x (w_rect w)) _ _ _ Hw Hmx).
    nra.
Qed.

Lemma slider_pixel_mapping_witness :
  let w := mkWidget (mkSlider 0 50 25) (mkRect 1000 322 264 8) false in
  val (w_slider (widget_update_val w 900)) = 0%R ∧
  val (w_slider (widget_update_val w 1300)) = 50%R.
Proof.
  cbv zeta.
  destruct (slider_pixel_mapping
              (mkWidget (mkSlider 0 50 25) (mkRect 1000 322 264 8) false) 900)
    as (_ & Hleft & _); [reflexivity|cbn; lra|].
  destruct (slider_pixel_mapping
              (mkWidget (mkSlider 0 50 25) (mkRect 1000 322 264 8) false) 1300)
    as (_ & _ & Hright & _); [reflexivity|cbn; lra|].
  split; [apply Hleft; cbn; lia|apply Hright; cbn; lia].
Defined.

(** X11.  Under any sequence of events a slider keeps its bounds and its
    rectangle, and a value that lies between the bounds stays between them.
    After a button release the slider is no longer dragged, and pointer
    motions leave it as it is until the next press. *)
Theorem slider_events_keep_range (w : SliderWidget) (es : list Event) :
  let lo := min_v (w_slider w) in
  let hi := max_v (w_slider w) in
  let handle := λ (w : SliderWidget) (e : Event), (slider_handle_event w e).1 in
  (lo <= hi)%R → (lo <= val (w_slider w) <= hi)%R →
  (min_v (w_slider (foldl handle w es)) = lo ∧
   max_v (w_slider (foldl handle w es)) = hi ∧
   w_rect (foldl handle w es) = w_rect w ∧
   (lo <= val (w_slider (foldl handle w es)) <= hi)%R) ∧
  (∀ pos button (motions : list (Z * Z)),
     let released := handle w (MOUSEBUTTONUP pos button) in
     w_dragging released = false ∧
     foldl handle released (MOUSEMOTION <$> motions) = released).
Proof.
  cbv zeta. intros Hle Hval. split.
  - revert w Hle Hval. induction es as [|e es IH]; intros w Hle Hval; [done|].
    cbn [foldl].
    destruct (slider_handle_event_range w e Hle Hval) as (Hlo & Hhi & Hr & Hv).
    cbv zeta in *. rewrite <- Hlo, <- Hhi, <- Hr.
    apply IH; by rewrite ?Hlo, ?Hhi.
  - intros pos button motions. split; [done|].
    induction motions as [|m motions IH]; [done|].
    cbn [fmap list_fmap foldl slider_handle_event fst w_dragging]. exact IH.
Qed.

Lemma slider_events_keep_range_witness :
  let w := mkWidget (mkSlider 0 50 25) (mkRect 1000 322 264 8) false in
  let handle := λ (w : SliderWidget) (e : Event), (slider_handle_event w e).1 in
  (0 <= val (w_slider
               (foldl handle w
                  [MOUSEBUTTONDOWN (1100, 325)%Z 1; MOUSEMOTION (2000, 0)%Z;
                   MOUSEBUTTONUP (2000, 0)%Z 1])) <= 50)%R.
Proof.
  cbv zeta.
  destruct (slider_events_keep_range
              (mkWidget (mkSlider 0 50 25) (mkRect 1000 322 264 8) false)
              [MOUSEBUTTONDOWN (1100, 325)%Z 1; MOUSEMOTION (2000, 0)%Z;
               MOUSEBUTTONUP (2000, 0)%Z 1]) as [(_ & _ & _ & Hrange) _].
  - cbn. lra.
  - cbn. lra.
  - exact Hrange.
Defined.

(** ** The window and the pointer *)

Lemma setup_display_cell_size (w h : Z) :
  cell_size (_setup_display w h)
  = Z.max (Z.min ((w - PANEL_WIDTH) / GRID_WIDTH) (h / GRID_HEIGHT)) 6.
Proof. done. Qed.

Lemma setup_display_fields (w h : Z) :
  let d := _setup_display w h in
  (6 ≤ cell_size d)%Z ∧
  grid_px_w d = (GRID_WIDTH * cell_size d)%Z ∧
  grid_px_h d = (GRID_HEIGHT * cell_size d)%Z ∧
  grid_offset_y d = ((h - grid_px_h d) / 2)%Z.
Proof. cbv zeta. split; [rewrite setup_display_cell_size; lia|done]. Qed.

(** Floor division by a positive number. *)
Lemma floor_div_unique (a c q : Z) :
  (0 < c)%Z → (q * c ≤ a < q * c + c)%Z → (a / c = q)%Z.
Proof.
  intros Hc Ha. symmetry. apply (Z.div_unique a c q (a - q * c)); lia.
Qed.

Lemma floor_div_neg (a c : Z) : (0 < c)%Z → (a < 0)%Z → (a / c < 0)%Z.
Proof. intros Hc Ha. apply Z.div_lt_upper_bound; lia. Qed.

Lemma floor_div_ge (a c n : Z) :
  (0 < c)%Z → (n * c ≤ a)%Z → (n ≤ a / c)%Z.
Proof. intros Hc Ha. apply Z.div_le_lower_bound; lia. Qed.

Lemma ignite_at_outside (s : ForestFireSimulation) (gy gx : Z) :
  in_grid gy gx = false → ignite_at s gy gx = s.
Proof. intros Hout. unfold ignite_at. by rewrite Hout. Qed.

(** X12.  [_setup_display] never makes a cell smaller than 6 pixels.  On a
    screen of at least 1040 by 480 pixels the grid fits: it ends left of
    the panel, it is not higher than the window and it is centred
    vertically, up to one pixel.  On a narrower screen the cells are 6
    pixels wide and the grid reaches into the panel. *)
Theorem setup_display_geometry (w h : Z) :
  let d := _setup_display w h in
  (6 ≤ cell_size d)%Z ∧
  grid_px_w d = (GRID_WIDTH * cell_size d)%Z ∧
  grid_px_h d = (GRID_HEIGHT * cell_size d)%Z ∧
  (0 ≤ (h - grid_px_h d) - 2 * grid_offset_y d ≤ 1)%Z ∧
  ((1040 ≤ w)%Z → (480 ≤ h)%Z →
     (grid_px_w d ≤ w - PANEL_WIDTH)%Z ∧ (grid_px_h d ≤ h)%Z ∧
     (0 ≤ grid_offset_y d)%Z ∧ (grid_offset_y d + grid_px_h d ≤ h)%Z) ∧
  ((w < 1040)%Z →
     cell_size d = 6%Z ∧ (w - PANEL_WIDTH < grid_px_w d)%Z).
Proof.
  cbv zeta. destruct (setup_display_fields w h) as (Hcs & Hpw & Hph & Hoff).
  cbv zeta in *. rewrite Hoff, Hpw, Hph, setup_display_cell_size.
  unfold PANEL_WIDTH, GRID_WIDTH, GRID_HEIGHT.
  repeat split; try intros; Z.div_mod_to_equations; lia.
Qed.

Lemma setup_display_geometry_witness :
  let d := _setup_display 1920 1080 in
  (grid_px_w d ≤ 1920 - PANEL_WIDTH)%Z ∧ (grid_px_h d ≤ 1080)%Z ∧
  cell_size (_setup_display 1024 768) = 6%Z.
Proof.
  cbv zeta.
  destruct (setup_display_geometry 1920 1080) as (_ & _ & _ & _ & Hfit & _).
  destruct (setup_display_geometry 1024 768) as (_ & _ & _ & _ & _ & Hsmall).
  destruct Hfit as (Hw & Hh & _); [lia..|].
  destruct Hsmall as (Hsix & _); [lia|].
  split; [exact Hw|]. split; [exact Hh|exact Hsix].
Defined.

(** X13.  The click handler finds the cell that is drawn under the pointer:
    a left click on a pixel of the rectangle that [_draw_grid] fills for a
    cell of the grid acts as [ignite_at] on that cell.  A click outside the
    drawn grid, or with another button, changes nothing. *)
Theorem click_finds_drawn_cell (w h : Z) (s : ForestFireSimulation)
  (y x button : Z) (pos : Z * Z) :
  let d := _setup_display w h in
  (in_grid y x = true → collidepoint (cell_rect d y x) pos = true →
     grid_click d s 1 pos = ignite_at s y x) ∧
  (collidepoint (mkRect 0 (grid_offset_y d) (grid_px_w d) (grid_px_h d)) pos
   = false → grid_click d s button pos = s) ∧
  (button ≠ 1%Z → grid_click d s button pos = s).
Proof.
  cbv zeta. destruct (setup_display_fields w h) as (Hcs & Hpw & Hph & _).
  cbv zeta in *. destruct pos as [mx my]. split; [|split].
  - intros Hin Hhit. unfold in_grid in Hin. unfold collidepoint in Hhit.
    cbn [cell_rect rect_x rect_y rect_width rect_height fst snd] in Hhit.
    repeat (apply andb_prop in Hin as [Hin ?]).
    repeat (apply andb_prop in Hhit as [Hhit ?]).
    unfold grid_click. cbn [Z.eqb Pos.eqb]. rewrite Hpw.
    assert ((mx <? GRID_WIDTH * cell_size (_setup_display w h))%Z = true)
      as -> by (apply Z.ltb_lt; nia).
    rewrite (floor_div_unique mx _ x), (floor_div_unique _ _ y) by lia.
    done.
  - intros Hout. unfold grid_click. destruct (button =? 1)%Z; [|done].
    destruct (mx <? _)%Z eqn:Hmx; [|done]. apply Z.ltb_lt in Hmx.
    apply ignite_at_outside. unfold collidepoint in Hout.
    cbn [rect_x rect_y rect_width rect_height fst snd] in Hout.
    rewrite Hpw, Hph in Hout. rewrite Hpw in Hmx. unfold in_grid.
    set (cs := cell_size (_setup_display w h)) in *.
    set (off := grid_offset_y (_setup_display w h)) in *.
    apply not_true_is_false. intros Hin.
    repeat (apply andb_prop in Hin as [Hin ?]).
    assert (0 ≤ mx)%Z.
    { destruct (Z_lt_dec mx 0) as [Hneg|]; [|lia].
      pose proof (floor_div_neg mx cs ltac:(lia) Hneg). lia. }
    assert (0 ≤ my - off)%Z.
    { destruct (Z_lt_dec (my - off) 0) as [Hneg|]; [|lia].
      pose proof (floor_div_neg (my - off) cs ltac:(lia) Hneg). lia. }
    assert (my - off < GRID_HEIGHT * cs)%Z.
    { destruct (Z_lt_dec (my - off) (GRID_HEIGHT * cs)) as [|Hge]; [done|].
      pose proof (floor_div_ge (my - off) cs GRID_HEIGHT ltac:(lia)
                    ltac:(lia)). lia. }
    revert Hout. rewrite !andb_false_iff, !Z.leb_gt, !Z.ltb_ge. lia.
  - intros Hb. unfold grid_click.
    by assert ((button =? 1)%Z = false) as -> by (by apply Z.eqb_neq).
Qed.

Lemma click_finds_drawn_cell_witness :
  let d := _setup_display 1920 1080 in
  grid_click d (state_of zero_grid false) 1 (100, 50)%Z
  = ignite_at (state_of zero_grid false) 2 7 ∧
  grid_click d (state_of zero_grid false) 1 (1700, 50)%Z
  = state_of zero_grid false.
Proof.
  cbv zeta.
  destruct (click_finds_drawn_cell 1920 1080 (state_of zero_grid false)
              2 7 1 (100, 50)%Z) as (Hcell & _ & _).
  destruct (click_finds_drawn_cell 1920 1080 (state_of zero_grid false)
              0 0 1 (1700, 50)%Z) as (_ & Hout & _).
  split; [apply Hcell; reflexivity|apply Hout; reflexivity].
Defined.

(** The hit areas of the panel, whose left edge depends on the window. *)
Lemma hit_areas_unfold (win_w : Z) :
  hit_areas win_w =
    [mkRect (win_w - 302) 80 284 28; mkRect (win_w - 302) 138 284 28;
     mkRect (win_w - 302) 196 284 28; mkRect (win_w - 302) 254 284 28;
     mkRect (win_w - 302) 312 284 28;
     mkRect (win_w - 292) 580 264 42; mkRect (win_w - 292) 632 264 42;
     mkRect (win_w - 292) 684 264 42; mkRect (win_w - 292) 736 264 42;
     mkRect (win_w - 292) 788 264 42]%Z.
Proof.
  unfold hit_areas, slider_rects, button_rects, inflate, PANEL_WIDTH.
  cbn [fmap list_fmap app rect_x rect_y rect_width rect_height].
  change (Z.quot 20 2) with 10%Z.
  repeat (apply (f_equal2 cons); [f_equal; lia|]). reflexivity.
Qed.

Lemma collidepoint_true (r : Rect) (pos : Z * Z) :
  collidepoint r pos = true ↔
  (rect_x r ≤ pos.1 < rect_x r + rect_width r)%Z ∧
  (rect_y r ≤ pos.2 < rect_y r + rect_height r)%Z.
Proof.
  unfold collidepoint.
  rewrite !andb_true_iff, !Z.leb_le, !Z.ltb_lt. tauto.
Qed.

(** X14.  The areas in which the five sliders and the five buttons react to
    a press do not overlap: a point lies in at most one of them, so a press
    starts at most one drag or one action. *)
Theorem widgets_do_not_overlap (win_w : Z) (i j : nat) (r1 r2 : Rect)
  (pos : Z * Z) :
  hit_areas win_w !! i = Some r1 → hit_areas win_w !! j = Some r2 →
  collidepoint r1 pos = true → collidepoint r2 pos = true → i = j.
Proof.
  rewrite hit_areas_unfold. intros H1 H2 Hc1%collidepoint_true
    Hc2%collidepoint_true.
  do 10 (destruct i as [|i]; [inversion H1; subst r1; clear H1|];
         [cbn [rect_x rect_y rect_width rect_height] in Hc1;
          do 10 (destruct j as [|j]; [inversion H2; subst r2; clear H2|];
                 [cbn [rect_x rect_y rect_width rect_height] in Hc2;
                  first [reflexivity|lia]|]);
          inversion H2|]).
  inversion H1.
Qed.

Lemma widgets_do_not_overlap_witness :
  hit_areas 1920 !! 0%nat = Some (mkRect 1618 80 284 28) ∧
  collidepoint (mkRect 1618 80 284 28) (1700, 100)%Z = true ∧
  0%nat = 0%nat.
Proof.
  split; [reflexivity|]. split; [reflexivity|].
  apply (widgets_do_not_overlap 1920 0 0 (mkRect 1618 80 284 28)
           (mkRect 1618 80 284 28) (1700, 100)%Z); reflexivity.
Defined.

(** X15.  On a screen at least 1022 pixels wide the hit areas of the
    controls lie outside the clickable grid: a press inside the hit area of
    a slider or a button is not also handled as a click on the grid, the
    grid branch of [_handle_events] leaves the simulation as it is.  What
    the control itself does with the press is not part of this statement. *)
Theorem control_press_is_no_grid_click (w h : Z) (s : ForestFireSimulation)
  (r : Rect) (button : Z) (pos : Z * Z) :
  (1022 ≤ w)%Z → r ∈ hit_areas w → collidepoint r pos = true →
  grid_click (_setup_display w h) s button pos = s.
Proof.
  intros Hw Hr Hc%collidepoint_true.
  assert (w - 302 ≤ pos.1)%Z as Hx.
  { rewrite hit_areas_unfold in Hr.
    repeat (apply elem_of_cons in Hr as [->|Hr];
            [cbn [rect_x rect_y rect_width rect_height] in Hc; lia|]).
    by apply elem_of_nil in Hr. }
  destruct pos as [mx my]. cbn [fst] in Hx. unfold grid_click.
  destruct (button =? 1)%Z; [|done].
  destruct (setup_display_fields w h) as (_ & -> & _).
  rewrite setup_display_cell_size.
  assert ((mx <? GRID_WIDTH
                 * Z.max (Z.min ((w - PANEL_WIDTH) / GRID_WIDTH)
                                (h / GRID_HEIGHT)) 6)%Z = false) as ->; [|done].
  apply Z.ltb_ge. unfold PANEL_WIDTH, GRID_WIDTH, GRID_HEIGHT.
  Z.div_mod_to_equations. lia.
Qed.

Lemma control_press_is_no_grid_click_witness :
  grid_click (_setup_display 1024 768)
    (state_of (grid_set zero_grid 2 3 TREE) false) 1 (730, 90)%Z
  = state_of (grid_set zero_grid 2 3 TREE) false.
Proof.
  apply (control_press_is_no_grid_click 1024 768 _ (mkRect 722 80 284 28)).
  - lia.
  - rewrite hit_areas_unfold. left.
  - reflexivity.
Defined.

(** ** The frame of the main loop *)

Lemma step_due (elapsed : Z) :
  bool_decide (1000 / IZR SIMULATION_SPEED < IZR elapsed)%R
  = bool_decide (334 ≤ elapsed)%Z.
Proof.
  unfold SIMULATION_SPEED. apply bool_decide_ext. split.
  - intros Hlt. destruct (Z_le_dec 334 elapsed) as [|Hsmall]; [done|].
    assert (IZR elapsed <= 333)%R by (apply IZR_le; lia). lra.
  - intros Hle. apply IZR_le in Hle. lra.
Qed.

(** X16.  A frame of the main loop syncs the parameters and then advances
    the simulation by one step exactly when it is running, not paused and
    at least 334 milliseconds have passed since the last step; the step then
    restarts the clock.  In every other case the frame leaves the grid, the
    flags, the clock and the generator alone. *)
Theorem frame_steps_when_due {G : Type} `{RS : RandomState G}
  (d : Driver) (now : Z) (g : G) :
  let s := _sync_params (sim d) in
  (running (sim d) = true → paused (sim d) = false →
   (334 ≤ now - last_step d)%Z →
     run_frame d now g
     = (mkDriver (_simulate_step s g).1 now, (_simulate_step s g).2)) ∧
  (running (sim d) = false ∨ paused (sim d) = true
   ∨ (now - last_step d < 334)%Z →
     run_frame d now g = (mkDriver s (last_step d), g) ∧
     grid s = grid (sim d) ∧ running s = running (sim d) ∧
     paused s = paused (sim d)).
Proof.
  cbv zeta. unfold run_frame. rewrite step_due.
  cbn [_sync_params running paused grid]. split.
  - intros -> -> Hdue. rewrite bool_decide_eq_true_2 by done. cbn [andb negb].
    by destruct (_simulate_step _ g).
  - intros Hidle. split; [|done].
    destruct Hidle as [-> | [-> | Hearly]]; [done|by rewrite andb_false_r|].
    rewrite bool_decide_eq_false_2 by lia. by rewrite andb_false_r.
Qed.

Lemma frame_steps_when_due_witness :
  let d := mkDriver (state_of (grid_set zero_grid 4 4 BURNING) true) 1000 in
  run_frame d 1200 0%nat
    = (mkDriver (_sync_params (sim d)) 1000, 0%nat) ∧
  run_frame d 1334 0%nat
    = (mkDriver (_simulate_step (_sync_params (sim d)) 0%nat).1 1334,
       (_simulate_step (_sync_params (sim d)) 0%nat).2).
Proof.
  cbv zeta.
  destruct (frame_steps_when_due
              (mkDriver (state_of (grid_set zero_grid 4 4 BURNING) true) 1000)
              1200 0%nat) as [_ Hidle].
  destruct (frame_steps_when_due
              (mkDriver (state_of (grid_set zero_grid 4 4 BURNING) true) 1000)
              1334 0%nat) as [Hstep _].
  split.
  - apply Hidle. right. right. cbn. lia.
  - apply Hstep; [reflexivity|reflexivity|cbn; lia].
Defined.

(** ** Clicks on cells *)

(** X17.  A click on a cell ignites it only if the cell lies in the grid and
    is a tree: then exactly this cell becomes [BURNING], every other cell
    keeps its state and the simulation is marked as running.  A click
    outside the grid or on a cell that is not a tree changes nothing. *)
Theorem ignite_at_behaviour (s : ForestFireSimulation) (gy gx : Z) :
  (in_grid gy gx = true → cell_at (grid s) gy gx = Some TREE →
     running (ignite_at s gy gx) = true ∧
     (∀ y x : Z, (0 ≤ y)%Z → (0 ≤ x)%Z →
        cell_at (grid (ignite_at s gy gx)) y x =
          if decide ((gy, gx) = (y, x)) then Some BURNING
          else cell_at (grid s) y x) ∧
     ignite_at s gy gx
     = with_running (with_grid s (grid (ignite_at s gy gx))) true) ∧
  (in_grid gy gx = false ∨ cell_at (grid s) gy gx ≠ Some TREE →
     ignite_at s gy gx = s).
Proof.
  unfold ignite_at. split.
  - intros Hin Htree. rewrite Hin, bool_decide_eq_true_2 by done.
    cbn [andb with_running with_grid grid running]. split; [done|].
    split; [|done]. intros y x Hy Hx.
    apply in_grid_nonneg in Hin as [? ?].
    apply cell_at_grid_set; [done..|]. by rewrite Htree.
  - intros [-> | Hne]; [done|].
    rewrite (bool_decide_eq_false_2 _ Hne). by rewrite andb_false_r.
Qed.

Lemma ignite_at_behaviour_witness :
  let s := state_of (grid_set zero_grid 2 3 TREE) false in
  running (ignite_at s 2 3) = true ∧
  ignite_at s 2 4 = s ∧ ignite_at s (-1) 3 = s.
Proof.
  cbv zeta.
  destruct (ignite_at_behaviour
              (state_of (grid_set zero_grid 2 3 TREE) false) 2 3)
    as [Htree _].
  destruct (ignite_at_behaviour
              (state_of (grid_set zero_grid 2 3 TREE) false) 2 4)
    as [_ Hempty].
  destruct (ignite_at_behaviour
              (state_of (grid_set zero_grid 2 3 TREE) false) (-1) 3)
    as [_ Houtside].
  split; [|split].
  - apply Htree; [reflexivity|vm_compute; reflexivity].
  - apply Hempty. right. vm_compute. discriminate.
  - apply Houtside. left. reflexivity.
Defined.

(** ** The statistics *)

Lemma count_row_total (row : list CellState) :
  (count_row EMPTY row + count_row TREE row + count_row BURNING row
   + count_row BURNT row)%nat = length row.
Proof.
  induction row as [|c row IH]; [done|].
  rewrite !count_row_cons. cbn [length].
  destruct c; repeat case_decide; try done; lia.
Qed.

Lemma length_row_where (c : CellState) (y x : Z) (row : list CellState) :
  length (row_where c y x row) = count_row c row.
Proof.
  revert x. induction row as [|c' row IH]; intros x; [done|].
  cbn [row_where]. rewrite length_app, IH, count_row_cons.
  by case_decide.
Qed.

(** X18.  The counts of the statistics card partition the grid: the numbers
    of [EMPTY], [TREE], [BURNING] and [BURNT] cells add up to the
    [GRID_WIDTH * GRID_HEIGHT] cells of the array; and for every state the
    count is the number of coordinates that [argwhere] lists, so that
    [_start_fire] sees as many trees as the card shows. *)
Theorem statistics_partition (gr : Grid) (c : CellState) :
  length (argwhere gr c) = count_state gr c ∧
  (grid_shape gr →
   (count_state gr EMPTY + count_state gr TREE + count_state gr BURNING
    + count_state gr BURNT)%nat = Z.to_nat (GRID_WIDTH * GRID_HEIGHT)).
Proof.
  split.
  - unfold argwhere. generalize 0%Z.
    induction gr as [|row gr IH]; intros y; [done|].
    cbn [argwhere_from]. rewrite length_app, length_row_where, IH.
    by rewrite count_state_cons.
  - intros [Hlen Hrows].
    assert ((count_state gr EMPTY + count_state gr TREE
             + count_state gr BURNING + count_state gr BURNT)%nat
            = (length gr * Z.to_nat GRID_WIDTH)%nat) as ->.
    { clear Hlen. induction Hrows as [|row gr Hrow _ IH]; [done|].
      rewrite !count_state_cons. cbn [length].
      pose proof (count_row_total row). lia. }
    rewrite Hlen. unfold GRID_WIDTH, GRID_HEIGHT. lia.
Qed.

Lemma statistics_partition_witness :
  let gr := grid_set (grid_set zero_grid 5 5 BURNING) 5 6 TREE in
  (count_state gr EMPTY + count_state gr TREE + count_state gr BURNING
   + count_state gr BURNT)%nat = (120 * 80)%nat.
Proof.
  cbv zeta.
  destruct (statistics_partition
              (grid_set (grid_set zero_grid 5 5 BURNING) 5 6 TREE) TREE)
    as [_ Htotal].
  rewrite Htotal; [reflexivity|].
  do 2 apply grid_set_shape. apply zero_grid_shape.
Defined.

(** ** Resetting the forest *)

(** X19.  [_reset_forest] takes the tree density from the first slider,
    draws a new forest at that density from the next
    [GRID_HEIGHT * GRID_WIDTH] draws, with no burning or burnt cell, and
    clears the running and paused flags.  It leaves the sliders, the other
    four parameters and the fire probability as they were. *)
Theorem reset_forest_behaviour {G : Type} `{RS : RandomState G}
  (s : ForestFireSimulation) (g : G) :
  let s' := (_reset_forest s g).1 in
  tree_density s' = val (slider0 (sliders s)) ∧
  grid s' =
    (choice_grid (val (slider0 (sliders s))) (Z.to_nat GRID_HEIGHT)
                 (Z.to_nat GRID_WIDTH) g).1 ∧
  grid_shape (grid s') ∧
  any_state (grid s') BURNING = false ∧ any_state (grid s') BURNT = false ∧
  running s' = false ∧ paused s' = false ∧
  (sliders s' = sliders s ∧ wind_dir s' = wind_dir s ∧
   wind_str s' = wind_str s ∧ moisture s' = moisture s ∧
   temperature s' = temperature s ∧ fire_prob s' = fire_prob s) ∧
  (_reset_forest s g).2
  = advance (Z.to_nat GRID_HEIGHT * Z.to_nat GRID_WIDTH) g.
Proof.
  cbv zeta.
  pose proof (init_forest_fields
                (with_tree_density s (val (slider0 (sliders s)))) g) as Hf.
  pose proof (init_forest_generator
                (with_tree_density s (val (slider0 (sliders s)))) g) as Hgen.
  pose proof (reset_forest_grid s g) as Hgrid.
  rewrite init_forest_grid in Hgrid.
  cbn [with_tree_density tree_density] in Hgrid.
  destruct (reset_forest_inv s g) as [Hshape _].
  destruct (reset_forest_flags s g) as [Hrun Hpause].
  assert (any_state (grid (_reset_forest s g).1) BURNT = false) as Hburnt.
  { rewrite Hgrid. apply any_state_false.
    eapply Forall_impl; [apply choice_grid_states|]. intros row Hrow.
    eapply Forall_impl; [exact Hrow|]. by intros c [-> | ->]. }
  assert (any_state (grid (_reset_forest s g).1) BURNING = false) as Hfire
    by (rewrite reset_forest_grid; apply init_forest_no_fire).
  unfold _reset_forest in *. cbv zeta in Hf.
  destruct (_init_forest _ g) as [s2 g']. cbn [fst snd] in *.
  destruct Hf as (_ & _ & Hs & Hd & Hwd & Hws & Hm & Ht & Hp).
  cbn [with_paused with_running tree_density sliders wind_dir wind_str
       moisture temperature fire_prob grid] in *.
  cbn [with_tree_density tree_density sliders wind_dir wind_str moisture
       temperature fire_prob] in *.
  destruct Hshape. repeat split; done.
Qed.
